(** * Sndctl: process supervisor and serialized command dispatcher

    A shallow embedding of
      - [sndctl/services/soco_cli_service.py]      (class [SocoCliService])
      - [sonos_hub/services/sonos_command_service.py] (class [SonosCommandService])
      - [sonos_hub/routers/sonos.py]                   (the handler [toggle_mute])
    together with the properties of these components.

    The dispatcher imports its supervisor from its own package; the class is
    the one of [soco_cli_service.py] above.

    Conventions of the embedding.
      - A Python [str] is a [string] (a byte string holding the UTF-8 text);
        [str.lower] and [str.strip] work on the ASCII range; iteration over
        a string goes character by character.
      - A value decoded by [response.json()] is a [json] tree; a JSON object is
        an insertion-ordered association list, as a Python [dict] is.
      - A call to the operating system, the file system or the HTTP peer may
        raise, inside a [try] or not: its outcome is an [Exc]. That holds for
        [Path.exists()] and [Path.home()], which [_get_executable_path] calls
        bare, and for [Popen.kill()], which [stop_server] calls from a
        handler. [Popen.poll()] on a handle the supervisor holds returns. Only
        subclasses of [Exception] are modelled: no cancellation of a task.
      - The operating system, the file system and the HTTP peer are an [Env] of
        oracles indexed by a logical clock that [asyncio.sleep(1)] advances.
      - Calls to [logger] change nothing that is modelled and are left out. *)

From Stdlib Require Import ZArith String Ascii List Bool Lia Floats.
From stdpp Require Import base list strings pretty.
Import ListNotations.

Local Open Scope string_scope.
Local Open Scope Z_scope.

(* ===================================================================== *)
(** * Part I. Definitions                                                 *)
(* ===================================================================== *)

(** ** Python values, exceptions and the few builtins the services use *)

Module Py.

(** Exceptions, all of them subclasses of [Exception]. [str] of an exception
    is its message. *)
Inductive exn : Type :=
  | TimeoutExpired (msg : string)          (* subprocess.TimeoutExpired *)
  | TypeError (msg : string)
  | AttributeError (msg : string)
  | KeyError (msg : string)
  | OtherException (cls : string) (msg : string).

Definition str_exn (e : exn) : string :=
  match e with
  | TimeoutExpired msg | TypeError msg | AttributeError msg | KeyError msg => msg
  | OtherException _ msg => msg
  end.

Definition is_TimeoutExpired (e : exn) : bool :=
  match e with TimeoutExpired _ => true | _ => false end.

(** Outcome of a call that may raise. *)
Inductive Exc (A : Type) : Type :=
  | Ok (a : A)
  | Raise (e : exn).
Arguments Ok {A} a.
Arguments Raise {A} e.

Definition exc_bind {A B} (x : Exc A) (f : A -> Exc B) : Exc B :=
  match x with Ok a => f a | Raise e => Raise e end.

(** [try: x  except Exception as e: h e] *)
Definition try_except {A} (x : Exc A) (h : exn -> Exc A) : Exc A :=
  match x with Ok a => Ok a | Raise e => h e end.

Definition returns {A} (x : Exc A) : Prop := exists a, x = Ok a.

(** The values [json.loads] produces. *)
#[warning="-register-all"]
Inductive json : Type :=
  | JNull
  | JBool (b : bool)
  | JInt (n : Z)
  | JFloat (f : float)
  | JStr (s : string)
  | JArr (l : list json)
  | JObj (d : list (string * json)).

(** [bool(v)] *)
Definition truthy (v : json) : bool :=
  match v with
  | JNull => false
  | JBool b => b
  | JInt n => negb (n =? 0)
  | JFloat f => negb (PrimFloat.eqb f 0%float)
  | JStr s => negb (String.eqb s "")
  | JArr l => match l with [] => false | _ => true end
  | JObj d => match d with [] => false | _ => true end
  end.

(** [d.get(key)] on a dict: the value bound to [key], if any. *)
Fixpoint dict_lookup (key : string) (d : list (string * json)) : option json :=
  match d with
  | [] => None
  | (k, v) :: rest => if String.eqb k key then Some v else dict_lookup key rest
  end.

(** [needle in hay] on two strings. *)
Fixpoint str_in (needle hay : string) : bool :=
  String.prefix needle hay
  || match hay with
     | EmptyString => false
     | String _ rest => str_in needle rest
     end.

Definition lower_ascii (c : ascii) : ascii :=
  let n := nat_of_ascii c in
  if ((65 <=? n) && (n <=? 90))%nat then ascii_of_nat (n + 32) else c.

(** [s.lower()] *)
Fixpoint lower (s : string) : string :=
  match s with
  | EmptyString => EmptyString
  | String c rest => String (lower_ascii c) (lower rest)
  end.

(** [str(n)] for an [int]. *)
Definition str_int (n : Z) : string := pretty n.

(** [sep.join(l)] *)
Definition join (sep : string) (l : list string) : string := String.concat sep l.

(** [type(v).__name__] *)
Definition type_name (v : json) : string :=
  match v with
  | JNull => "NoneType"
  | JBool _ => "bool"
  | JInt _ => "int"
  | JFloat _ => "float"
  | JStr _ => "str"
  | JArr _ => "list"
  | JObj _ => "dict"
  end.

(** Equality of two decoded values restricted to what the services compare:
    a string against a string. *)
Definition eq_str (key : string) (v : json) : bool :=
  match v with JStr s => String.eqb s key | _ => false end.

(** [key in v] for a string [key]. *)
Definition contains (key : string) (v : json) : Exc bool :=
  match v with
  | JObj d => Ok (match dict_lookup key d with Some _ => true | None => false end)
  | JArr l => Ok (existsb (eq_str key) l)
  | JStr s => Ok (str_in key s)
  | JNull | JBool _ | JInt _ | JFloat _ =>
      Raise (TypeError ("argument of type '" +:+ type_name v +:+ "' is not iterable"))
  end.

(** [v[key]] for a string [key]. *)
Definition getitem (key : string) (v : json) : Exc json :=
  match v with
  | JObj d => match dict_lookup key d with
              | Some x => Ok x
              | None => Raise (KeyError key)
              end
  | JArr _ => Raise (TypeError "list indices must be integers or slices, not str")
  | JStr _ => Raise (TypeError "string indices must be integers, not 'str'")
  | JNull | JBool _ | JInt _ | JFloat _ =>
      Raise (TypeError ("'" +:+ type_name v +:+ "' object is not subscriptable"))
  end.

(** The bytes [10xxxxxx] of UTF-8 continue the character before them. *)
Definition is_continuation (c : ascii) : bool :=
  let n := nat_of_ascii c in ((128 <=? n) && (n <? 192))%nat.

(** The characters of a string: each leading byte with the continuation
    bytes that follow it. *)
Fixpoint characters (s : string) : list string :=
  match s with
  | EmptyString => []
  | String c rest =>
      let continued := match rest with
                       | String d _ => is_continuation d
                       | EmptyString => false
                       end in
      match characters rest with
      | g :: gs => if continued then String c g :: gs
                   else String c EmptyString :: g :: gs
      | [] => [String c EmptyString]
      end
  end.

Definition chars (s : string) : list json := map JStr (characters s).

(** The elements [for s in v] runs over. *)
Definition iter (v : json) : Exc (list json) :=
  match v with
  | JArr l => Ok l
  | JStr s => Ok (chars s)
  | JObj d => Ok (map (fun kv => JStr (fst kv)) d)
  | JNull | JBool _ | JInt _ | JFloat _ =>
      Raise (TypeError ("'" +:+ type_name v +:+ "' object is not iterable"))
  end.

(** [v.get(key, default)]: only a dict has the method. *)
Definition get (key : string) (default : json) (v : json) : Exc json :=
  match v with
  | JObj d => Ok (match dict_lookup key d with Some x => x | None => default end)
  | _ => Raise (AttributeError
                  ("'" +:+ type_name v +:+ "' object has no attribute 'get'"))
  end.

(** *** [urllib.parse.quote(s)] with its default [safe='/'] *)

Definition is_unreserved (c : ascii) : bool :=
  let n := nat_of_ascii c in
  (((65 <=? n) && (n <=? 90))        (* A-Z *)
   || ((97 <=? n) && (n <=? 122))    (* a-z *)
   || ((48 <=? n) && (n <=? 57))     (* 0-9 *)
   || (n =? 95) || (n =? 46) || (n =? 45) || (n =? 126)   (* _ . - ~ *)
   || (n =? 47))%nat.                (* the safe character / *)

Definition hex_digit (n : nat) : ascii :=
  if (n <? 10)%nat then ascii_of_nat (48 + n) else ascii_of_nat (55 + n).

Definition percent_encode (c : ascii) : string :=
  let n := nat_of_ascii c in
  String "%" (String (hex_digit (n / 16)) (String (hex_digit (n mod 16)) EmptyString)).

Fixpoint quote (s : string) : string :=
  match s with
  | EmptyString => EmptyString
  | String c rest =>
      (if is_unreserved c then String c EmptyString else percent_encode c)
      +:+ quote rest
  end.

End Py.
Export Py.

#[global] Instance Exc_bind : MBind Exc := fun A B f x => exc_bind x f.
#[global] Instance Exc_ret : MRet Exc := @Ok.

(** ** [pathlib]: pure POSIX paths *)

Module Pathlib.

(** A parsed path: its root ([""], ["/"] or ["//"]) and its components. *)
Record PurePath : Type := { root : string; parts : list string }.

(** [s.split("/")] *)
Fixpoint split_slash (s : string) : list string :=
  match s with
  | EmptyString => [EmptyString]
  | String c rest =>
      if Ascii.eqb c "/" then EmptyString :: split_slash rest
      else match split_slash rest with
           | [] => [String c EmptyString]
           | hd :: tl => String c hd :: tl
           end
  end.

(** [posixpath.splitroot]: two leading slashes are kept, one or three and
    more are one. *)
Definition splitroot (p : string) : string * string :=
  match p with
  | String c0 r0 =>
      if Ascii.eqb c0 "/" then
        match r0 with
        | String c1 r1 =>
            if Ascii.eqb c1 "/" then
              match r1 with
              | String c2 _ => if Ascii.eqb c2 "/" then ("/", r0) else ("//", r1)
              | EmptyString => ("//", r1)
              end
            else ("/", r0)
        | EmptyString => ("/", r0)
        end
      else ("", p)
  | EmptyString => ("", p)
  end.

Definition is_component (x : string) : bool :=
  negb (String.eqb x "") && negb (String.eqb x ".").

(** [Path(s)] *)
Definition Path (s : string) : PurePath :=
  let '(r, rel) := splitroot s in
  {| root := r; parts := List.filter is_component (split_slash rel) |}.

(** [str(p)] *)
Definition str_path (p : PurePath) : string :=
  if String.eqb (root p) "" then
    match parts p with
    | [] => "."
    | _ => join "/" (parts p)
    end
  else root p +:+ join "/" (parts p).

(** [p / seg] *)
Definition joinpath (p : PurePath) (seg : string) : PurePath :=
  let q := Path seg in
  if String.eqb (root q) "" then {| root := root p; parts := parts p ++ parts q |}
  else q.

End Pathlib.
Export Pathlib.

Notation "p // seg" := (joinpath p seg) (at level 40, left associativity).

(** [s.strip()] on the ASCII white space. *)
Definition is_space (c : ascii) : bool :=
  let n := nat_of_ascii c in
  (((9 <=? n) && (n <=? 13)) || ((28 <=? n) && (n <=? 32)))%nat.

Fixpoint lstrip (s : string) : string :=
  match s with
  | EmptyString => EmptyString
  | String c rest => if is_space c then lstrip rest else s
  end.

Fixpoint rstrip (s : string) : string :=
  match s with
  | EmptyString => EmptyString
  | String c rest =>
      let rest' := rstrip rest in
      if is_space c && String.eqb rest' "" then EmptyString else String c rest'
  end.

Definition strip (s : string) : string := rstrip (lstrip s).

(** ** The world the services run in *)

(** [subprocess.Popen]: the handle of a spawned child. *)
Record Popen : Type := { pid : Z }.

(** [datetime]: an instant, in microseconds since the epoch. *)
Definition datetime : Type := Z.

(** [httpx.Response]: the status, the body text and what [response.json()]
    gives on it. *)
Record Response : Type := {
  status_code : Z;
  text : string;
  json_body : Exc json
}.

(** [config.Settings], with the attributes the two services read. *)
Record Settings : Type := {
  soco_cli_url : string;
  soco_cli_executable_path : option string;
  soco_cli_port : Z;
  macros_file_path : string;
  soco_cli_use_local_cache : bool
}.

(** The oracles. The [nat] argument is the logical clock at the call. *)
Record Env : Type := {
  fs_exists : string -> Exc bool;            (* Path(p).exists(), by str(p) *)
  fs_home : Exc string;                      (* Path.home() *)
  run_which : string -> Exc (Z * string);    (* subprocess.run(["which", c], timeout=5):
                                                returncode and stdout *)
  os_popen : list string -> nat -> Exc Popen;   (* subprocess.Popen(args, ...) *)
  os_poll : Popen -> nat -> option Z;        (* Popen.poll(): None while alive *)
  os_terminate : Popen -> nat -> Exc unit;   (* Popen.terminate() *)
  os_wait : Popen -> Z -> nat -> Exc unit;   (* Popen.wait(timeout=t) *)
  os_kill : Popen -> nat -> Exc unit;        (* Popen.kill() *)
  utcnow : nat -> datetime;                  (* datetime.now(timezone.utc) *)
  isoformat : datetime -> string;            (* datetime.isoformat() *)
  http_get : string -> Z -> nat -> Exc Response  (* GET url with a timeout in seconds *)
}.

(** What the services do to the world, in order. [Popen.poll()] only reads the
    handle and is not recorded. *)
Inductive Event : Type :=
  | EvExists (p : string)
  | EvHome
  | EvWhich (command : string)
  | EvSpawn (args : list string)          (* a call of subprocess.Popen *)
  | EvSleep (seconds : Z)
  | EvGet (url : string) (timeout : Z)
  | EvTerminate (p : Popen)
  | EvWait (p : Popen) (timeout : Z)
  | EvKill (p : Popen).

(** ** [soco_cli_service.py]: the process supervisor *)

Module soco_cli_service.

(** The attributes of a [SocoCliService] instance that change. The start
    lock is free whenever one caller runs alone, so it is not a field. *)
Record SocoCliService : Type := {
  _process : option Popen;
  _started_at : option datetime;
  _is_starting : bool
}.

(** [__init__] *)
Definition init : SocoCliService :=
  {| _process := None; _started_at := None; _is_starting := false |}.

(** The supervisor, the logical clock and the events so far. *)
Record Machine : Type := {
  svc : SocoCliService;
  clock : nat;
  trace : list Event
}.

Definition boot : Machine := {| svc := init; clock := 0; trace := [] |}.

Definition record_event (e : Event) (m : Machine) : Machine :=
  {| svc := svc m; clock := clock m; trace := trace m ++ [e] |}.

Definition with_svc (s : SocoCliService) (m : Machine) : Machine :=
  {| svc := s; clock := clock m; trace := trace m |}.

(** What [get_status] returns: the four entries of the dict. *)
Record Status : Type := {
  isRunning : bool;
  processId : option Z;
  serverUrl : option string;
  startedAt : option string
}.

Section WithWorld.

Context (settings : Settings) (env : Env).

(** [server_url] *)
Definition server_url : string := soco_cli_url settings.

(** [is_running] *)
Definition is_running (m : Machine) : bool :=
  match _process (svc m) with
  | None => false
  | Some p => match os_poll env p (clock m) with
              | None => true
              | Some _ => false
              end
  end.

(** [Path(...).exists()]. The call answers, or raises what [os.stat] raised
    and [exists] does not take for an absent file (a [PermissionError], a
    name that is too long). *)
Definition path_exists (p : PurePath) (m : Machine) : Exc bool * Machine :=
  (fs_exists env (str_path p), record_event (EvExists (str_path p)) m).

(** [Path.home()]. The call raises [RuntimeError] when the home directory
    cannot be determined. *)
Definition path_home (m : Machine) : Exc PurePath * Machine :=
  (match fs_home env with Ok h => Ok (Path h) | Raise e => Raise e end,
   record_event EvHome m).

(** [_resolve_from_path]. The whole body is in the [try]: whatever is raised,
    by [subprocess.run] or by the existence test, ends in [return None]. *)
Definition _resolve_from_path (command : string) (m : Machine)
  : option string * Machine :=
  let m1 := record_event (EvWhich command) m in
  match run_which env command with
  | Ok (returncode, stdout) =>
      if returncode =? 0 then
        let path := strip stdout in
        if negb (String.eqb path "") then
          match path_exists (Path path) m1 with
          | (Ok found, m2) => (if found then Some path else None, m2)
          | (Raise e, m2) => (None, m2)       (* except Exception *)
          end
        else (None, m1)
      else (None, m1)
  | Raise e => (None, m1)                     (* except Exception *)
  end.

Definition common_users : list string := ["danmc"; "pi"; "sonos"].

Definition possible_paths (home_dir : PurePath) : list string :=
  [ str_path (home_dir // ".local" // "bin" // "sonos-http-api-server");
    str_path (home_dir // ".local" // "share" // "pipx" // "venvs"
                       // "soco-cli" // "bin" // "sonos-http-api-server") ]
  ++ flat_map (fun user =>
       [ "/home/" +:+ user +:+ "/.local/bin/sonos-http-api-server";
         "/home/" +:+ user
           +:+ "/.local/share/pipx/venvs/soco-cli/bin/sonos-http-api-server" ])
       common_users
  ++ [ "/usr/local/bin/sonos-http-api-server";
       "/opt/homebrew/bin/sonos-http-api-server" ].

(** [for path in possible_paths: if Path(path).exists(): return path]. The
    loop is not in a [try]: an existence test that raises ends it. *)
Fixpoint first_existing (paths : list string) (m : Machine)
  : Exc (option string) * Machine :=
  match paths with
  | [] => (Ok None, m)
  | path :: rest =>
      match path_exists (Path path) m with
      | (Ok found, m1) => if found then (Ok (Some path), m1) else first_existing rest m1
      | (Raise e, m1) => (Raise e, m1)
      end
  end.

(** What [_get_executable_path] does once the configured path has not
    settled the search. A [Path] is always truthy, so the test
    [if home_dir:] always passes and is not written. *)
Definition search_executable (m : Machine) : Exc string * Machine :=
  match path_home m with
  | (Raise e, m2) => (Raise e, m2)
  | (Ok home_dir, m2) =>
      match first_existing (possible_paths home_dir) m2 with
      | (Raise e, m3) => (Raise e, m3)
      | (Ok (Some path), m3) => (Ok path, m3)
      | (Ok None, m3) =>
          match _resolve_from_path "sonos-http-api-server" m3 with
          | (Some resolved, m4) => (Ok resolved, m4)
          | (None, m4) => (Ok "sonos-http-api-server", m4)
          end
      end
  end.

(** [_get_executable_path]. Nothing in it is in a [try]: what an existence
    test or the home lookup raises is raised by the method. *)
Definition _get_executable_path (m : Machine) : Exc string * Machine :=
  match soco_cli_executable_path settings with
  | Some s =>
      if negb (String.eqb s "") then
        let path := Path s in
        match path_exists path m with
        | (Raise e, m1) => (Raise e, m1)
        | (Ok found, m1) =>
            if found then (Ok (str_path path), m1) else search_executable m1
        end
      else search_executable m
  | None => search_executable m
  end.

(** [get_status] *)
Definition get_status (m : Machine) : Status * Machine :=
  ({| isRunning := is_running m;
      processId := match _process (svc m) with
                   | Some p => Some (pid p)
                   | None => None
                   end;
      serverUrl := if is_running m then Some server_url else None;
      startedAt := match _started_at (svc m) with
                   | Some t => Some (isoformat env t)
                   | None => None
                   end |}, m).

(** [await asyncio.sleep(1)] *)
Definition sleep (seconds : nat) (m : Machine) : Machine :=
  {| svc := svc m; clock := (clock m + seconds)%nat;
     trace := trace m ++ [EvSleep (Z.of_nat seconds)] |}.

(** The readiness probe: [client.get(f"{self.server_url}/speakers", timeout=2)] *)
Definition probe (m : Machine) : Exc Response * Machine :=
  let url := server_url +:+ "/speakers" in
  (http_get env url 2 (clock m), record_event (EvGet url 2) m).

(** The loop [for i in range(10): ...] of [start_server] together with
    the [return True] that follows it; [iterations] is what is left of
    [range(10)]. *)
Fixpoint readiness_loop (iterations : list nat) (m : Machine)
  : Exc bool * Machine :=
  match iterations with
  | [] => (Ok true, m)                     (* started but not yet responsive *)
  | i :: rest =>
      let m1 := sleep 1 m in
      if negb (is_running m1) then (Ok false, m1)   (* exited unexpectedly *)
      else
        match probe m1 with
        | (Ok response, m2) =>
            if status_code response =? 200 then (Ok true, m2)
            else readiness_loop rest m2
        | (Raise e, m2) => readiness_loop rest m2    (* except Exception *)
        end
  end.

Definition server_args (executable : string) : list string :=
  [ executable;
    "--port"; str_int (soco_cli_port settings);
    "--macros"; macros_file_path settings ]
  ++ (if soco_cli_use_local_cache settings
      then ["--use-local-speaker-list"] else []).

(** The body of the [try] of [start_server]. *)
Definition start_server_body (m : Machine) : Exc bool * Machine :=
  match _get_executable_path m with
  | (Raise e, m1) => (Raise e, m1)
  | (Ok executable, m1) =>
      let args := server_args executable in
      let m2 := record_event (EvSpawn args) m1 in
      match os_popen env args (clock m2) with
      | Raise e => (Raise e, m2)
      | Ok p =>
          let m3 := with_svc {| _process := Some p;
                                _started_at := _started_at (svc m2);
                                _is_starting := _is_starting (svc m2) |} m2 in
          let m4 := with_svc {| _process := _process (svc m3);
                                _started_at := Some (utcnow env (clock m3));
                                _is_starting := _is_starting (svc m3) |} m3 in
          readiness_loop (seq 0 10) m4
      end
  end.

Definition set_is_starting (b : bool) (m : Machine) : Machine :=
  with_svc {| _process := _process (svc m);
              _started_at := _started_at (svc m);
              _is_starting := b |} m.

(** [start_server] *)
Definition start_server (m : Machine) : Exc bool * Machine :=
  if is_running m then (Ok true, m)                 (* quick check without lock *)
  else
    (* async with self._start_lock *)
    if is_running m || _is_starting (svc m) then (Ok true, m)
    else
      let m1 := set_is_starting true m in
      let '(r, m2) := start_server_body m1 in
      let r' := try_except r (fun e => Ok false) in  (* except Exception *)
      (r', set_is_starting false m2).                (* finally *)

Definition clear_handle (m : Machine) : Machine :=
  with_svc {| _process := None;
              _started_at := None;
              _is_starting := _is_starting (svc m) |} m.

(** The two calls of the [try] of [stop_server]. *)
Definition terminate_and_wait (p : Popen) (m : Machine) : Exc unit * Machine :=
  let m1 := record_event (EvTerminate p) m in
  match os_terminate env p (clock m1) with
  | Raise e => (Raise e, m1)
  | Ok _ =>
      let m2 := record_event (EvWait p 5) m1 in
      (os_wait env p 5 (clock m2), m2)
  end.

(** [stop_server] *)
Definition stop_server (m : Machine) : Exc bool * Machine :=
  match _process (svc m) with
  | None => (Ok true, m)
  | Some p =>
      let '(r, m1) := terminate_and_wait p m in
      let '(r', m2) :=
        match r with
        | Ok _ => (Ok true, m1)
        | Raise (TimeoutExpired _) =>        (* except subprocess.TimeoutExpired *)
            let m' := record_event (EvKill p) m1 in
            match os_kill env p (clock m') with
            | Ok _ => (Ok true, m')
            | Raise e => (Raise e, m')
            end
        | Raise _ => (Ok false, m1)          (* except Exception *)
        end in
      (r', clear_handle m2)                  (* finally *)
  end.

(** [ensure_server_running] *)
Definition ensure_server_running (m : Machine) : Exc unit * Machine :=
  if negb (is_running m) then
    match start_server m with
    | (Ok _, m') => (Ok tt, m')
    | (Raise e, m') => (Raise e, m')
    end
  else (Ok tt, m).

End WithWorld.

End soco_cli_service.
Export soco_cli_service.

(** ** [sonos_command_service.py]: the command dispatcher *)

Module sonos_command_service.

(** Modelled from the spec: the declaration of [SocoCliResponse]
    (models/sonos.py, one of the package's Pydantic models) is not part of the
    sources at hand. The spec gives its fields and their types (section 3,
    CommandResult): [speaker] and [action] strings, [args] a sequence of
    strings, [exit_code] an integer, the result text and the error message
    strings. *)
Record SocoCliResponse : Type := {
  speaker : string;
  action : string;
  args : list string;
  exit_code : Z;
  result : string;
  error_msg : string
}.

(** Modelled from the spec: the value the [result] field of
    [SocoCliResponse] takes when the constructor is not given one. The spec
    has the result text empty in both places where the service leaves it out
    (section 4.2, steps 5 and 7). *)
Definition default_result : string := "".

(** A decoded value as a field of each declared type. *)
Definition as_str (v : json) : option string :=
  match v with JStr s => Some s | _ => None end.

Definition as_int (v : json) : option Z :=
  match v with JInt n => Some n | _ => None end.

Fixpoint as_strs (l : list json) : option (list string) :=
  match l with
  | [] => Some []
  | v :: rest =>
      match as_str v, as_strs rest with
      | Some s, Some ss => Some (s :: ss)
      | _, _ => None
      end
  end.

Definition as_str_list (v : json) : option (list string) :=
  match v with JArr l => as_strs l | _ => None end.

(** The names of the fields whose value is not of the declared type. *)
Definition unless {A} (valid : option A) (field : string) : list string :=
  match valid with Some _ => [] | None => [field] end.

Definition invalid_fields (f_speaker f_action f_args f_exit_code f_result f_error_msg : json)
  : list string :=
  unless (as_str f_speaker) "speaker"
  ++ unless (as_str f_action) "action"
  ++ unless (as_str_list f_args) "args"
  ++ unless (as_int f_exit_code) "exit_code"
  ++ unless (as_str f_result) "result"
  ++ unless (as_str f_error_msg) "error_msg".

(** [pydantic.ValidationError], with the first line of its text. *)
Definition ValidationError (fields : list string) : exn :=
  OtherException "ValidationError"
    (str_int (Z.of_nat (length fields))
     +:+ (if (length fields =? 1)%nat then " validation error" else " validation errors")
     +:+ " for SocoCliResponse").

(** Modelled from the spec: the constructor [SocoCliResponse(speaker=...,
    action=..., args=..., exit_code=..., result=..., error_msg=...)] on
    decoded values. Being a Pydantic model it validates what it is given
    against the declared types: a value of the declared type is taken as it
    is, and a value that is not makes the constructor raise. Conversions
    between types are not modelled: every value of another type is refused. *)
Definition validate (f_speaker f_action f_args f_exit_code f_result f_error_msg : json)
  : Exc SocoCliResponse :=
  match as_str f_speaker, as_str f_action, as_str_list f_args,
        as_int f_exit_code, as_str f_result, as_str f_error_msg with
  | Some sp, Some ac, Some ar, Some ec, Some re, Some er =>
      Ok {| speaker := sp; action := ac; args := ar;
            exit_code := ec; result := re; error_msg := er |}
  | _, _, _, _, _, _ =>
      Raise (ValidationError (invalid_fields f_speaker f_action f_args
                                             f_exit_code f_result f_error_msg))
  end.

(** [httpx.AsyncClient(timeout=...)] *)
Record AsyncClient : Type := { client_timeout : Z; is_closed : bool }.

(** A [SonosCommandService] instance: its supervisor and its HTTP client.
    The request lock is free whenever one caller runs alone; the module
    [request_lock] below has the callers that do not. *)
Record SonosCommandService : Type := {
  _soco_cli_service : Machine;
  _client : option AsyncClient
}.

Definition with_supervisor (m : Machine) (d : SonosCommandService)
  : SonosCommandService :=
  {| _soco_cli_service := m; _client := _client d |}.

Definition str_list (l : list string) : json := JArr (map JStr l).

Section WithWorld.

Context (settings : Settings) (env : Env).

(** [_get_client] *)
Definition _get_client (d : SonosCommandService)
  : AsyncClient * SonosCommandService :=
  match _client d with
  | Some c =>
      if is_closed c then
        let c' := {| client_timeout := 30; is_closed := false |} in
        (c', {| _soco_cli_service := _soco_cli_service d; _client := Some c' |})
      else (c, d)
  | None =>
      let c' := {| client_timeout := 30; is_closed := false |} in
      (c', {| _soco_cli_service := _soco_cli_service d; _client := Some c' |})
  end.

(** [await client.get(url)] *)
Definition client_get (c : AsyncClient) (url : string) (d : SonosCommandService)
  : Exc Response * SonosCommandService :=
  let m := _soco_cli_service d in
  (http_get env url (client_timeout c) (clock m),
   with_supervisor (record_event (EvGet url (client_timeout c)) m) d).

(** [[s for s in v if s]] *)
Definition truthy_elements (v : json) : Exc (list json) :=
  l ← iter v; mret (List.filter truthy l).

(** What [get_speakers] and [rediscover_speakers] do with the outcome of
    the GET, inside their [try]. *)
Definition names_of_response (key : string) (r : Exc Response)
  : Exc (list json) :=
  response ← r;
  if negb (status_code response =? 200) then mret []
  else
    result ← json_body response;
    present ← contains key result;
    if (present : bool) then
      v ← getitem key result;
      truthy_elements v
    else mret [].

(** The body the two listing calls share: they differ in the path and in
    the key only. *)
Definition list_names (path key : string) (d : SonosCommandService)
  : Exc (list json) * SonosCommandService :=
  match ensure_server_running settings env (_soco_cli_service d) with
  | (Raise e, m) => (Raise e, with_supervisor m d)
  | (Ok _, m) =>
      (* async with self._request_lock: try: *)
      let '(client, d1) := _get_client (with_supervisor m d) in
      let url := server_url settings +:+ path in
      let '(r, d2) := client_get client url d1 in
      (try_except (names_of_response key r) (fun _ => Ok []), d2)
  end.

(** [get_speakers] *)
Definition get_speakers : SonosCommandService -> Exc (list json) * SonosCommandService :=
  list_names "/speakers" "speakers".

(** [rediscover_speakers] *)
Definition rediscover_speakers : SonosCommandService -> Exc (list json) * SonosCommandService :=
  list_names "/rediscover" "speakers_discovered".

(** The URL of a command. *)
Definition command_url (speaker action : string) (args : list string) : string :=
  let url := server_url settings +:+ "/" +:+ quote speaker +:+ "/" +:+ quote action in
  match args with
  | [] => url
  | _ => url +:+ "/" +:+ join "/" (map quote args)
  end.

(** What [execute_command] does with the outcome of the GET, inside its
    [try]. *)
Definition response_of_get (speaker action : string) (args : list string)
    (r : Exc Response) : Exc SocoCliResponse :=
  response ← r;
  if negb (status_code response =? 200) then
    mret {| speaker := speaker;
            action := action;
            args := args;
            exit_code := status_code response;
            result := default_result;
            error_msg := "HTTP " +:+ str_int (status_code response) |}
  else
    result ← json_body response;
    f_speaker ← get "speaker" (JStr speaker) result;
    f_action ← get "action" (JStr action) result;
    f_args ← get "args" (str_list args) result;
    f_exit_code ← get "exit_code" (JInt 0) result;
    f_result ← get "result" (JStr "") result;
    f_error_msg ← get "error_msg" (JStr "") result;
    validate f_speaker f_action f_args f_exit_code f_result f_error_msg.

(** The [except Exception as e] of [execute_command]. *)
Definition failed_response (speaker action : string) (args : list string)
    (e : exn) : SocoCliResponse :=
  {| speaker := speaker;
     action := action;
     args := args;
     exit_code := -1;
     result := default_result;
     error_msg := str_exn e |}.

(** [execute_command] *)
Definition execute_command (speaker action : string) (args : list string)
    (d : SonosCommandService) : Exc SocoCliResponse * SonosCommandService :=
  match ensure_server_running settings env (_soco_cli_service d) with
  | (Raise e, m) => (Raise e, with_supervisor m d)
  | (Ok _, m) =>
      (* async with self._request_lock: try: *)
      let '(client, d1) := _get_client (with_supervisor m d) in
      let url := command_url speaker action args in
      let '(r, d2) := client_get client url d1 in
      (try_except (response_of_get speaker action args r)
                  (fun e => Ok (failed_response speaker action args e)), d2)
  end.

(** [_is_timeout_or_connection_error] *)
Definition _is_timeout_or_connection_error (error_msg : option string) : bool :=
  match error_msg with
  | None => false
  | Some msg =>
      if String.eqb msg "" then false
      else
        let lower_error := lower msg in
        existsb (fun s => str_in s lower_error)
          [ "timed out"; "timeout"; "connection refused"; "unreachable";
            "no route to host"; "network is unreachable"; "connecttimeouterror";
            "max retries exceeded" ]
  end.

End WithWorld.

End sonos_command_service.
Export sonos_command_service.

(** ** Concurrent callers of [execute_command] and the request lock

    The callers are tasks of one event loop: a task runs until it awaits, so
    the code between two awaits is one step. [asyncio.Lock] is modelled as it
    is written: a flag and a queue of waiters, [acquire] taking the lock at once
    only when it is free and nobody waits, [release] waking the first waiter.
    Cancellation of a task is not modelled. *)

Module request_lock.

(** Where a caller stands in [execute_command]. *)
Inductive pc : Type :=
  | AtEnsure                     (* awaiting ensure_server_running() *)
  | AtAcquire                    (* about to enter [async with self._request_lock] *)
  | Waiting (woken : bool)       (* queued in [Lock.acquire]; [woken] once its
                                    future has a result *)
  | InLock                       (* lock held, request not sent yet *)
  | InFlight                     (* lock held, awaiting client.get(url) *)
  | Returned (r : SocoCliResponse).   (* lock released, result returned *)

Definition holds_lock (p : pc) : bool :=
  match p with InLock | InFlight => true | _ => false end.

(** [asyncio.Lock] *)
Record Lock : Type := { _locked : bool; _waiters : list nat }.

(** The HTTP calls as the server sees them. *)
Inductive event : Type :=
  | Issue (caller : nat) (url : string)
  | Complete (caller : nat).

(** A call [execute_command(speaker, action, *args)]. *)
Record Call : Type := {
  call_speaker : string;
  call_action : string;
  call_args : list string
}.

Record State : Type := {
  calls : list Call;            (* the calls, by caller *)
  at_ : list pc;                (* where each caller stands *)
  _request_lock : Lock;
  history : list event
}.

Definition start (cs : list Call) : State :=
  {| calls := cs;
     at_ := map (fun _ => AtEnsure) cs;
     _request_lock := {| _locked := false; _waiters := [] |};
     history := [] |}.

(** [Lock._wake_up_first] *)
Definition _wake_up_first (waiters : list nat) (ps : list pc) : list pc :=
  match waiters with
  | [] => ps
  | j :: _ =>
      match ps !! j with
      | Some (Waiting false) => <[j := Waiting true]> ps
      | _ => ps
      end
  end.

(** What a scheduler can make happen next. *)
Inductive label : Type :=
  | Ensured (i : nat)            (* ensure_server_running() came back *)
  | Acquire (i : nat)            (* the caller runs into [Lock.acquire] *)
  | Resume (i : nat)             (* a woken waiter runs again *)
  | Send (i : nat)               (* the caller reaches client.get(url) *)
  | Receive (i : nat) (r : Exc Response).   (* the GET ends: a response or an exception *)

Section WithWorld.

Context (settings : Settings).

Definition result_of (c : Call) (r : Exc Response) : SocoCliResponse :=
  match try_except
          (response_of_get (call_speaker c) (call_action c) (call_args c) r)
          (fun e => Ok (failed_response (call_speaker c) (call_action c)
                                        (call_args c) e)) with
  | Ok resp => resp
  | Raise e => failed_response (call_speaker c) (call_action c) (call_args c) e
  end.

(** One step; [None] when the step is not possible in the state. *)
Definition step (l : label) (s : State) : option State :=
  let lk := _request_lock s in
  match l with
  | Ensured i =>
      match at_ s !! i with
      | Some AtEnsure =>
          Some {| calls := calls s; at_ := <[i := AtAcquire]> (at_ s);
                  _request_lock := lk; history := history s |}
      | _ => None
      end
  | Acquire i =>
      match at_ s !! i with
      | Some AtAcquire =>
          if negb (_locked lk) && match _waiters lk with [] => true | _ => false end
          then Some {| calls := calls s; at_ := <[i := InLock]> (at_ s);
                       _request_lock := {| _locked := true; _waiters := _waiters lk |};
                       history := history s |}
          else Some {| calls := calls s; at_ := <[i := Waiting false]> (at_ s);
                       _request_lock := {| _locked := _locked lk;
                                           _waiters := _waiters lk ++ [i] |};
                       history := history s |}
      | _ => None
      end
  | Resume i =>
      match at_ s !! i with
      | Some (Waiting true) =>
          Some {| calls := calls s; at_ := <[i := InLock]> (at_ s);
                  _request_lock :=
                    {| _locked := true;
                       _waiters := List.filter (fun j => negb (j =? i)%nat) (_waiters lk) |};
                  history := history s |}
      | _ => None
      end
  | Send i =>
      match at_ s !! i, calls s !! i with
      | Some InLock, Some c =>
          Some {| calls := calls s; at_ := <[i := InFlight]> (at_ s);
                  _request_lock := lk;
                  history := history s ++
                    [Issue i (command_url settings (call_speaker c) (call_action c)
                                          (call_args c))] |}
      | _, _ => None
      end
  | Receive i r =>
      match at_ s !! i, calls s !! i with
      | Some InFlight, Some c =>
          Some {| calls := calls s;
                  at_ := _wake_up_first (_waiters lk)
                           (<[i := Returned (result_of c r)]> (at_ s));
                  _request_lock := {| _locked := false; _waiters := _waiters lk |};
                  history := history s ++ [Complete i] |}
      | _, _ => None
      end
  end.

(** A schedule, run from a state. *)
Fixpoint run (schedule : list label) (s : State) : option State :=
  match schedule with
  | [] => Some s
  | l :: rest => match step l s with
                 | Some s' => run rest s'
                 | None => None
                 end
  end.

End WithWorld.

(** Reading a history from its start: who is in flight after it, or [None]
    when some call was issued while another one was in flight, or ended
    without being the one in flight. *)
Definition observe (st : option (option nat)) (e : event) : option (option nat) :=
  match st, e with
  | Some None, Issue i _ => Some (Some i)
  | Some (Some j), Complete i => if (i =? j)%nat then Some None else None
  | _, _ => None
  end.

Definition in_flight (h : list event) : option (option nat) :=
  fold_left observe h (Some None).

(** The invariant of the lock protocol. *)

(** At most one caller holds the lock. *)
Definition one_holder (s : State) : Prop :=
  forall i j p q,
    at_ s !! i = Some p -> at_ s !! j = Some q ->
    holds_lock p = true -> holds_lock q = true -> i = j.

(** While a caller holds the lock, the lock is flagged as locked. *)
Definition holder_locked (s : State) : Prop :=
  forall i p,
    at_ s !! i = Some p -> holds_lock p = true -> _locked (_request_lock s) = true.

(** A woken waiter is the first in the queue, and the lock is free for it. *)
Definition woken_first (s : State) : Prop :=
  forall i,
    at_ s !! i = Some (Waiting true) ->
    _locked (_request_lock s) = false /\ head (_waiters (_request_lock s)) = Some i.

(** The history is one call at a time, and the call it leaves open is the one
    of the caller in flight. *)
Definition history_serial (s : State) : Prop :=
  exists o, in_flight (history s) = Some o
            /\ forall i, o = Some i <-> at_ s !! i = Some InFlight.

Definition lock_invariant (s : State) : Prop :=
  one_holder s /\ holder_locked s /\ woken_first s /\ history_serial s.

End request_lock.
Export request_lock.

(** ** Reachable supervisors and sample worlds *)

(** Time passing between two calls. *)
Definition elapse (n : nat) (m : Machine) : Machine :=
  {| svc := svc m; clock := (clock m + n)%nat; trace := trace m |}.

(** The machines a supervisor can be in: it is created by [__init__], its
    methods are called one after the other, the dispatcher records its GETs,
    and time passes. *)
Inductive reachable (settings : Settings) (env : Env) : Machine -> Prop :=
  | reach_boot : reachable settings env boot
  | reach_start m :
      reachable settings env m -> reachable settings env (snd (start_server settings env m))
  | reach_stop m :
      reachable settings env m -> reachable settings env (snd (stop_server env m))
  | reach_ensure m :
      reachable settings env m ->
      reachable settings env (snd (ensure_server_running settings env m))
  | reach_event m e :
      reachable settings env m -> reachable settings env (record_event e m)
  | reach_elapse m n :
      reachable settings env m -> reachable settings env (elapse n m).

(** The handle and the time stamp go together. *)
Definition consistent (m : Machine) : Prop :=
  _process (svc m) = None -> _started_at (svc m) = None.

(** The converse: no handle without a time stamp. *)
Definition stamped (m : Machine) : Prop :=
  _started_at (svc m) = None -> _process (svc m) = None.

(** The configured path does not settle the search: none is configured, or
    it is empty, or it does not exist. *)
Definition configured_miss (settings : Settings) (env : Env) : Prop :=
  match soco_cli_executable_path settings with
  | Some s => s = "" \/ fs_exists env (str_path (Path s)) = Ok false
  | None => True
  end.

(** No path of the list exists. *)
Definition none_exists (env : Env) (paths : list string) : Prop :=
  Forall (fun path => fs_exists env (str_path (Path path)) = Ok false) paths.

(** The existence tests of a list of paths, in order. *)
Definition tests_of (paths : list string) : list Event :=
  map (fun path => EvExists (str_path (Path path))) paths.

(** Every character of a string passes a test. *)
Fixpoint all_chars (P : ascii -> bool) (s : string) : bool :=
  match s with
  | EmptyString => true
  | String c rest => P c && all_chars P rest
  end.

(** The characters a quoted URL path is made of: the unreserved ones, the
    slash, and the percent sign of an escape. *)
Definition url_safe (c : ascii) : bool := is_unreserved c || Ascii.eqb c "%".

(** More of what the lock protocol keeps. *)

(** A locked lock has a holder. *)
Definition locked_has_holder (s : State) : Prop :=
  _locked (_request_lock s) = true ->
  exists i p, at_ s !! i = Some p /\ holds_lock p = true.

(** The queue of the lock holds exactly the callers that wait. *)
Definition waiters_are_waiting (s : State) : Prop :=
  forall j, In j (_waiters (_request_lock s)) <-> exists b, at_ s !! j = Some (Waiting b).

(** When the lock is free, the first waiter has been woken. *)
Definition free_lock_wakes (s : State) : Prop :=
  _locked (_request_lock s) = false ->
  forall j, head (_waiters (_request_lock s)) = Some j ->
            at_ s !! j = Some (Waiting true).

(** Every caller has its call. *)
Definition calls_match (s : State) : Prop := length (calls s) = length (at_ s).

Definition queue_invariant (s : State) : Prop :=
  locked_has_holder s /\ waiters_are_waiting s /\ free_lock_wakes s /\ calls_match s.

(** The steps a caller still has to take, at most. *)
Definition steps_left (p : pc) : nat :=
  match p with
  | AtEnsure => 5
  | AtAcquire => 4
  | Waiting _ => 3
  | InLock => 2
  | InFlight => 1
  | Returned _ => 0
  end.

Definition total_steps_left (ps : list pc) : nat :=
  fold_right (fun p n => (steps_left p + n)%nat) 0%nat ps.

(** All callers have returned. *)
Definition all_returned (s : State) : Prop :=
  forall i p, at_ s !! i = Some p -> exists r, p = Returned r.

(** How often caller [i] appears as issued, and as completed, in a history. *)
Definition issued (i : nat) (h : list event) : nat :=
  length (List.filter (fun e => match e with
                                | Issue j _ => (j =? i)%nat
                                | Complete _ => false
                                end) h).

Definition completed (i : nat) (h : list event) : nat :=
  length (List.filter (fun e => match e with
                                | Issue _ _ => false
                                | Complete j => (j =? i)%nat
                                end) h).

(** The caller's GET has been sent; the caller has returned. *)
Definition sent_at (ps : list pc) (i : nat) : bool :=
  match ps !! i with
  | Some InFlight | Some (Returned _) => true
  | _ => false
  end.

Definition returned_at (ps : list pc) (i : nat) : bool :=
  match ps !! i with
  | Some (Returned _) => true
  | _ => false
  end.

(** The history has one issue for each caller whose GET has been sent and one
    completion for each caller that has returned, and no others. *)
Definition history_counts (s : State) : Prop :=
  forall i,
    issued i (history s) = (if sent_at (at_ s) i then 1 else 0)%nat
    /\ completed i (history s) = (if returned_at (at_ s) i then 1 else 0)%nat.

(** The number of subprocesses spawned in a trace. *)
Definition spawns (t : list Event) : nat :=
  length (List.filter (fun e => match e with EvSpawn _ => true | _ => false end) t).

(** The process is alive at an instant; the readiness probe answers 200 there. *)
Definition alive_at (env : Env) (p : Popen) (t : nat) : bool :=
  match os_poll env p t with None => true | Some _ => false end.

Definition ready_at (settings : Settings) (env : Env) (t : nat) : bool :=
  match http_get env (server_url settings +:+ "/speakers") 2 t with
  | Ok response => status_code response =? 200
  | Raise _ => false
  end.

(** The machine after one full iteration of the readiness loop: one second
    slept, one probe sent. *)
Definition after_iteration (settings : Settings) (m : Machine) : Machine :=
  record_event (EvGet (server_url settings +:+ "/speakers") 2) (sleep 1 m).

(** Iteration [j] of the readiness loop (counted from 0, entered at machine
    [m]) looks at the world at [clock m + j + 1]. [quiet_until m k]: in each
    of the first [k] iterations the process is alive and the probe does not
    answer 200. *)
Definition quiet_until (settings : Settings) (env : Env) (p : Popen)
    (m : Machine) (k : nat) : Prop :=
  forall j, (j < k)%nat ->
    alive_at env p (clock m + j + 1) = true
    /\ ready_at settings env (clock m + j + 1) = false.

(** The outcome of the one GET a dispatcher call sends: the call first makes
    sure the server runs, then uses its client on [url]. *)
Definition get_outcome (settings : Settings) (env : Env) (url : string)
    (d : SonosCommandService) : Exc Response :=
  let m1 := snd (ensure_server_running settings env (_soco_cli_service d)) in
  let c := fst (_get_client (with_supervisor m1 d)) in
  http_get env url (client_timeout c) (clock m1).

(** What a listing call ([get_speakers], [rediscover_speakers]) promises, for
    the path it asks and the key it reads: it returns a list, never raises;
    no entry of the list is falsy, so none is the empty string; the list is
    empty after a status other than 200, after a body without the key, and
    after any exception; and a 200 whose body binds the key to an array gives
    the truthy entries of that array, in order. *)
Definition listing_contract (settings : Settings) (env : Env) (path key : string)
    (call : SonosCommandService -> Exc (list json) * SonosCommandService)
    (d : SonosCommandService) : Prop :=
  let outcome := get_outcome settings env (server_url settings +:+ path) d in
  exists names,
    fst (call d) = Ok names
    /\ Forall (fun x => truthy x = true) names
    /\ ~ In (JStr "") names
    /\ (forall response, outcome = Ok response ->
          status_code response <> 200 -> names = [])
    /\ (forall response J, outcome = Ok response ->
          status_code response = 200 -> json_body response = Ok (JObj J) ->
          dict_lookup key J = None -> names = [])
    /\ (forall e, outcome = Raise e -> names = [])
    /\ (forall response e, outcome = Ok response ->
          status_code response = 200 -> json_body response = Raise e -> names = [])
    /\ (forall response J l, outcome = Ok response ->
          status_code response = 200 -> json_body response = Ok (JObj J) ->
          dict_lookup key J = Some (JArr l) -> names = List.filter truthy l).

(** The fields of a decoded body that are present have the types
    [SocoCliResponse] declares. *)
Definition is_str (v : json) : Prop := exists s, v = JStr s.
Definition is_int (v : json) : Prop := exists n, v = JInt n.
Definition is_str_list (v : json) : Prop := exists l, v = JArr (map JStr l).

Definition present_as (P : json -> Prop) (key : string) (J : list (string * json))
  : Prop :=
  forall v, dict_lookup key J = Some v -> P v.

Definition typed_fields (J : list (string * json)) : Prop :=
  present_as is_str "speaker" J
  /\ present_as is_str "action" J
  /\ present_as is_str_list "args" J
  /\ present_as is_int "exit_code" J
  /\ present_as is_str "result" J
  /\ present_as is_str "error_msg" J.

Module Samples.

Definition settings : Settings :=
  {| soco_cli_url := "http://localhost:8000";
     soco_cli_executable_path := Some "/opt/soco/bin/sonos-http-api-server";
     soco_cli_port := 8000;
     macros_file_path := "/data/macros.txt";
     soco_cli_use_local_cache := true |}.

Definition ok_response (body : json) : Response :=
  {| status_code := 200; text := ""; json_body := Ok body |}.

(** A world where the executable is installed, the spawned server lives and
    answers every GET with 200 and a list of two speakers. *)
Definition env : Env :=
  {| fs_exists := fun p => Ok (String.eqb p "/opt/soco/bin/sonos-http-api-server");
     fs_home := Ok "/home/pi";
     run_which := fun _ => Ok (1, "");
     os_popen := fun _ _ => Ok {| pid := 4242 |};
     os_poll := fun _ _ => None;
     os_terminate := fun _ _ => Ok tt;
     os_wait := fun _ _ _ => Ok tt;
     os_kill := fun _ _ => Ok tt;
     utcnow := fun t => Z.of_nat t * 1000000;
     isoformat := fun t => str_int t;
     http_get := fun _ _ _ =>
       Ok (ok_response (JObj [("speakers", JArr [JStr "Kitchen"; JStr "Den"])])) |}.

(** The same world, but every child has exited with status 0 by the time
    it is polled. *)
Definition env_exited : Env :=
  {| fs_exists := fs_exists env; fs_home := fs_home env; run_which := run_which env;
     os_popen := os_popen env;
     os_poll := fun _ _ => Some 0;
     os_terminate := os_terminate env; os_wait := os_wait env; os_kill := os_kill env;
     utcnow := utcnow env; isoformat := isoformat env; http_get := http_get env |}.

(** The same world, but the server refuses connections until the third
    second and answers 200 from then on. *)
Definition env_slow : Env :=
{| fs_exists := fs_exists env; fs_home := fs_home env; run_which := run_which env;
   os_popen := os_popen env; os_poll := os_poll env;
   os_terminate := os_terminate env; os_wait := os_wait env; os_kill := os_kill env;
   utcnow := utcnow env; isoformat := isoformat env;
   http_get := fun url timeout t =>
     if (t <? 3)%nat then Raise (OtherException "ConnectError" "All connection attempts failed")
     else http_get env url timeout t |}.

(** The same world, but the server never answers. *)
Definition env_silent : Env :=
{| fs_exists := fs_exists env; fs_home := fs_home env; run_which := run_which env;
   os_popen := os_popen env; os_poll := os_poll env;
   os_terminate := os_terminate env; os_wait := os_wait env; os_kill := os_kill env;
   utcnow := utcnow env; isoformat := isoformat env;
   http_get := fun _ _ _ =>
     Raise (OtherException "ConnectError" "[Errno 111] Connection refused") |}.

(** The same world, but the server answers every GET with status 500. *)
Definition env_500 : Env :=
{| fs_exists := fs_exists env; fs_home := fs_home env; run_which := run_which env;
   os_popen := os_popen env; os_poll := os_poll env;
   os_terminate := os_terminate env; os_wait := os_wait env; os_kill := os_kill env;
   utcnow := utcnow env; isoformat := isoformat env;
   http_get := fun _ _ _ =>
     Ok {| status_code := 500; text := "Internal Server Error";
           json_body := Raise (OtherException "JSONDecodeError" "Expecting value") |} |}.

(** The same world, but a command is answered with 200 and a body that gives
    an exit code and a result and nothing else. *)
Definition env_partial : Env :=
{| fs_exists := fs_exists env; fs_home := fs_home env; run_which := run_which env;
   os_popen := os_popen env; os_poll := os_poll env;
   os_terminate := os_terminate env; os_wait := os_wait env; os_kill := os_kill env;
   utcnow := utcnow env; isoformat := isoformat env;
   http_get := fun _ _ _ =>
     Ok (ok_response (JObj [("exit_code", JInt 0); ("result", JStr "25")])) |}.

(** A dispatcher on a supervisor whose server already runs. *)
Definition dispatcher : SonosCommandService :=
{| _soco_cli_service :=
     {| svc := {| _process := Some {| pid := 4242 |};
                  _started_at := Some 0;
                  _is_starting := false |};
        clock := 12; trace := [] |};
   _client := None |}.

(** Two concurrent calls, and a schedule on which the second caller runs into
    the lock while the first one's GET is in flight. *)
Definition two_calls : list Call :=
[ {| call_speaker := "Kitchen"; call_action := "volume"; call_args := ["25"] |};
  {| call_speaker := "Den"; call_action := "mute"; call_args := [] |} ].

Definition contended : list label :=
[ Ensured 0; Ensured 1; Acquire 0; Send 0; Acquire 1;
  Receive 0 (Ok (ok_response (JObj [("result", JStr "25")])));
  Resume 1; Send 1;
  Receive 1 (Raise (OtherException "ReadTimeout" "timed out")) ].

(** A supervisor that still holds the handle of child 4242. *)
Definition holding : Machine :=
  {| svc := {| _process := Some {| pid := 4242 |};
               _started_at := Some 0;
               _is_starting := false |};
     clock := 12; trace := [] |}.

(** The same world, but a command is answered with 200 and a body whose
    exit code is not a number. *)
Definition env_ill_typed : Env :=
{| fs_exists := fs_exists env; fs_home := fs_home env; run_which := run_which env;
   os_popen := os_popen env; os_poll := os_poll env;
   os_terminate := os_terminate env; os_wait := os_wait env; os_kill := os_kill env;
   utcnow := utcnow env; isoformat := isoformat env;
   http_get := fun _ _ _ =>
     Ok (ok_response (JObj [("exit_code", JStr "abc"); ("result", JStr "25")])) |}.

(** The same world, but the child ignores SIGTERM, so that the wait of five
    seconds times out, and may not be signalled with SIGKILL. *)
Definition env_stuck : Env :=
{| fs_exists := fs_exists env; fs_home := fs_home env; run_which := run_which env;
   os_popen := os_popen env; os_poll := os_poll env;
   os_terminate := os_terminate env;
   os_wait := fun _ _ _ =>
     Raise (TimeoutExpired "Command 'sonos-http-api-server' timed out after 5 seconds");
   os_kill := fun _ _ =>
     Raise (OtherException "PermissionError" "[Errno 1] Operation not permitted");
   utcnow := utcnow env; isoformat := isoformat env; http_get := http_get env |}.

(** The same world, but the directory of the configured executable may not
    be searched: the existence test raises. *)
Definition env_denied : Env :=
{| fs_exists := fun p =>
     if String.eqb p "/opt/soco/bin/sonos-http-api-server"
     then Raise (OtherException "PermissionError"
                   "[Errno 13] Permission denied: '/opt/soco/bin/sonos-http-api-server'")
     else Ok false;
   fs_home := fs_home env; run_which := run_which env;
   os_popen := os_popen env; os_poll := os_poll env;
   os_terminate := os_terminate env; os_wait := os_wait env; os_kill := os_kill env;
   utcnow := utcnow env; isoformat := isoformat env; http_get := http_get env |}.

(** The sample world, but the executable cannot be run. *)
Definition env_no_exec : Env :=
{| fs_exists := fs_exists env; fs_home := fs_home env; run_which := run_which env;
   os_popen := fun _ _ =>
     Raise (OtherException "PermissionError" "[Errno 13] Permission denied");
   os_poll := os_poll env;
   os_terminate := os_terminate env; os_wait := os_wait env; os_kill := os_kill env;
   utcnow := utcnow env; isoformat := isoformat env; http_get := http_get env |}.

End Samples.

(** ** [sonos_command_service.py]: [get_speaker_info] *)

(** [s.replace(old, new)] for a one-character [old]. *)
Fixpoint replace_char (old : ascii) (new s : string) : string :=
  match s with
  | EmptyString => EmptyString
  | String c rest =>
      if Ascii.eqb c old then new +:+ replace_char old new rest
      else String c (replace_char old new rest)
  end.

(** [models.Speaker]. Its declaration is not part of the sources at hand:
    the record has the attributes [get_speaker_info] reads and assigns, and
    an attribute holds the value last assigned to it. What
    [Speaker(name=...)] gives the attributes is left open: the method is
    modelled for any such speaker. *)
Module Speaker.
Record t : Type := {
  name : string;
  volume : json;
  is_muted : json;
  playback_state : json;
  current_track : json;
  battery_level : json;
  is_offline : json;
  error_message : json
}.
End Speaker.

Module speaker_info.

Definition set_volume (v : json) (sp : Speaker.t) : Speaker.t :=
  {| Speaker.name := Speaker.name sp; Speaker.volume := v;
     Speaker.is_muted := Speaker.is_muted sp;
     Speaker.playback_state := Speaker.playback_state sp;
     Speaker.current_track := Speaker.current_track sp;
     Speaker.battery_level := Speaker.battery_level sp;
     Speaker.is_offline := Speaker.is_offline sp;
     Speaker.error_message := Speaker.error_message sp |}.

Definition set_is_muted (v : json) (sp : Speaker.t) : Speaker.t :=
  {| Speaker.name := Speaker.name sp; Speaker.volume := Speaker.volume sp;
     Speaker.is_muted := v;
     Speaker.playback_state := Speaker.playback_state sp;
     Speaker.current_track := Speaker.current_track sp;
     Speaker.battery_level := Speaker.battery_level sp;
     Speaker.is_offline := Speaker.is_offline sp;
     Speaker.error_message := Speaker.error_message sp |}.

Definition set_playback_state (v : json) (sp : Speaker.t) : Speaker.t :=
  {| Speaker.name := Speaker.name sp; Speaker.volume := Speaker.volume sp;
     Speaker.is_muted := Speaker.is_muted sp;
     Speaker.playback_state := v;
     Speaker.current_track := Speaker.current_track sp;
     Speaker.battery_level := Speaker.battery_level sp;
     Speaker.is_offline := Speaker.is_offline sp;
     Speaker.error_message := Speaker.error_message sp |}.

Definition set_current_track (v : json) (sp : Speaker.t) : Speaker.t :=
  {| Speaker.name := Speaker.name sp; Speaker.volume := Speaker.volume sp;
     Speaker.is_muted := Speaker.is_muted sp;
     Speaker.playback_state := Speaker.playback_state sp;
     Speaker.current_track := v;
     Speaker.battery_level := Speaker.battery_level sp;
     Speaker.is_offline := Speaker.is_offline sp;
     Speaker.error_message := Speaker.error_message sp |}.

Definition set_battery_level (v : json) (sp : Speaker.t) : Speaker.t :=
  {| Speaker.name := Speaker.name sp; Speaker.volume := Speaker.volume sp;
     Speaker.is_muted := Speaker.is_muted sp;
     Speaker.playback_state := Speaker.playback_state sp;
     Speaker.current_track := Speaker.current_track sp;
     Speaker.battery_level := v;
     Speaker.is_offline := Speaker.is_offline sp;
     Speaker.error_message := Speaker.error_message sp |}.

Definition set_is_offline (v : json) (sp : Speaker.t) : Speaker.t :=
  {| Speaker.name := Speaker.name sp; Speaker.volume := Speaker.volume sp;
     Speaker.is_muted := Speaker.is_muted sp;
     Speaker.playback_state := Speaker.playback_state sp;
     Speaker.current_track := Speaker.current_track sp;
     Speaker.battery_level := Speaker.battery_level sp;
     Speaker.is_offline := v;
     Speaker.error_message := Speaker.error_message sp |}.

Definition set_error_message (v : json) (sp : Speaker.t) : Speaker.t :=
  {| Speaker.name := Speaker.name sp; Speaker.volume := Speaker.volume sp;
     Speaker.is_muted := Speaker.is_muted sp;
     Speaker.playback_state := Speaker.playback_state sp;
     Speaker.current_track := Speaker.current_track sp;
     Speaker.battery_level := Speaker.battery_level sp;
     Speaker.is_offline := Speaker.is_offline sp;
     Speaker.error_message := v |}.

(** [speaker.is_offline = True; speaker.error_message = "Speaker is offline
    or unreachable"] *)
Definition mark_offline (sp : Speaker.t) : Speaker.t :=
  set_error_message (JStr "Speaker is offline or unreachable")
    (set_is_offline (JBool true) sp).

(** [r.exit_code != 0 and self._is_timeout_or_connection_error(r.error_msg)] *)
Definition looks_offline (r : SocoCliResponse) : bool :=
  negb (exit_code r =? 0) && _is_timeout_or_connection_error (Some (error_msg r)).

Section WithWorld.

(** [py_int] is [int] on a string, [None] standing for its [ValueError]. *)
Context (settings : Settings) (env : Env) (py_int : string -> option Z).

(** [try: speaker.<attribute> = int(text)  except ValueError: pass] *)
Definition assign_int (text : string) (set : json -> Speaker.t -> Speaker.t)
    (sp : Speaker.t) : Speaker.t :=
  match py_int text with
  | Some n => set (JInt n) sp
  | None => sp
  end.

(** The [except Exception as e] of [get_speaker_info]. *)
Definition failed (e : exn) (sp : Speaker.t) : Speaker.t :=
  set_error_message (JStr (str_exn e)) sp.

(** [get_speaker_info]; [blank] is what [Speaker(name=speaker_name)] gave. *)
Definition get_speaker_info (blank : Speaker.t) (speaker_name : string)
    (d : SonosCommandService) : Speaker.t * SonosCommandService :=
  let speaker := blank in
  match execute_command settings env speaker_name "volume" [] d with
  | (Raise e, d1) => (failed e speaker, d1)
  | (Ok volume_response, d1) =>
  if looks_offline volume_response then (mark_offline speaker, d1) else
  let speaker :=
    if exit_code volume_response =? 0
    then assign_int (result volume_response) set_volume speaker else speaker in
  match execute_command settings env speaker_name "mute" [] d1 with
  | (Raise e, d2) => (failed e speaker, d2)
  | (Ok mute_response, d2) =>
  if looks_offline mute_response then (mark_offline speaker, d2) else
  let speaker :=
    if exit_code mute_response =? 0
    then set_is_muted (JBool (String.eqb (lower (result mute_response)) "on")) speaker
    else speaker in
  match execute_command settings env speaker_name "playback" [] d2 with
  | (Raise e, d3) => (failed e speaker, d3)
  | (Ok state_response, d3) =>
  if looks_offline state_response then (mark_offline speaker, d3) else
  let speaker :=
    if exit_code state_response =? 0
    then set_playback_state (JStr (result state_response)) speaker else speaker in
  match execute_command settings env speaker_name "track" [] d3 with
  | (Raise e, d4) => (failed e speaker, d4)
  | (Ok track_response, d4) =>
  if looks_offline track_response then (mark_offline speaker, d4) else
  let speaker :=
    if exit_code track_response =? 0
    then set_current_track (JStr (result track_response)) speaker else speaker in
  match execute_command settings env speaker_name "battery" [] d4 with
  | (Raise e, d5) => (failed e speaker, d5)
  | (Ok battery_response, d5) =>
  let speaker :=
    if (exit_code battery_response =? 0)
       && negb (String.eqb (result battery_response) "")
    then assign_int (replace_char "%" "" (strip (result battery_response)))
                    set_battery_level speaker
    else speaker in
  (speaker, d5)
  end end end end end.

End WithWorld.

End speaker_info.
Export speaker_info.

(** The client of the service, when it has one, is one the service made:
    its timeout is the 30 seconds of [_get_client]. *)
Definition own_client (d : SonosCommandService) : Prop :=
  forall c, _client d = Some c -> client_timeout c = 30.

(** Two speakers with the same name, offline mark and error message. *)
Definition same_marks (a b : Speaker.t) : Prop :=
  Speaker.name a = Speaker.name b
  /\ Speaker.is_offline a = Speaker.is_offline b
  /\ Speaker.error_message a = Speaker.error_message b.

(** The service after one GET through its client, the server running. *)
Definition after_get (url : string) (d : SonosCommandService) : SonosCommandService :=
  {| _soco_cli_service := record_event (EvGet url 30) (_soco_cli_service d);
     _client := _client (snd (_get_client d)) |}.

(** What a command on a speaker, without arguments, is answered at time [t]
    when the server runs: the response made of the GET of its URL. *)
Definition answer (settings : Settings) (env : Env) (speaker_name : string)
    (t : nat) (action : string) : SocoCliResponse :=
  result_of {| call_speaker := speaker_name; call_action := action; call_args := [] |}
    (http_get env (command_url settings speaker_name action []) 30 t).

(** The four commands whose answer [get_speaker_info] checks for an offline
    speaker, in the order of the source. The fifth, [battery], is not
    checked. *)
Definition probes : list string := ["volume"; "mute"; "playback"; "track"].

(** The commands sent: up to the first probe that looks offline, that one
    included, and all of them and [battery] when none does. *)
Fixpoint up_to_offline (offline : string -> bool) (actions : list string)
  : list string :=
  match actions with
  | [] => []
  | a :: rest => a :: (if offline a then [] else up_to_offline offline rest)
  end.

Definition commands_sent (offline : string -> bool) : list string :=
  if existsb offline probes then up_to_offline offline probes
  else (probes ++ ["battery"])%list.

(** ** [routers/sonos.py]: a handler that calls the dispatcher twice *)

Module routers_sonos.

Definition RuntimeError (msg : string) : exn := OtherException "RuntimeError" msg.

(** [_get_command_service]; the argument is the module's global
    [_command_service], set by [init_router]. *)
Definition _get_command_service (_command_service : option SonosCommandService)
  : Exc SonosCommandService :=
  match _command_service with
  | Some d => Ok d
  | None => Raise (RuntimeError "Services not initialized")
  end.

Section WithWorld.

Context (settings : Settings) (env : Env).

(** [toggle_mute] *)
Definition toggle_mute (speaker_name : string)
    (_command_service : option SonosCommandService)
  : Exc SocoCliResponse * option SonosCommandService :=
  match _get_command_service _command_service with
  | Raise e => (Raise e, _command_service)
  | Ok d =>
      match execute_command settings env speaker_name "mute" [] d with
      | (Raise e, d1) => (Raise e, Some d1)
      | (Ok current_state, d1) =>
          let new_state :=
            if String.eqb (lower (result current_state)) "on" then "off" else "on" in
          match _get_command_service (Some d1) with
          | Raise e => (Raise e, Some d1)
          | Ok d2 =>
              let '(r, d3) :=
                execute_command settings env speaker_name "mute" [new_state] d2 in
              (r, Some d3)
          end
      end
  end.

End WithWorld.

End routers_sonos.
Export routers_sonos.

Module Samples2.

(** A world in which the server runs and answers each command of
    [get_speaker_info] with a fitting result. *)
Definition body (url : string) : json :=
  if str_in "/volume" url then JObj [("exit_code", JInt 0); ("result", JStr "25")]
  else if str_in "/mute" url then JObj [("exit_code", JInt 0); ("result", JStr "Off")]
  else if str_in "/playback" url then JObj [("exit_code", JInt 0); ("result", JStr "PLAYING")]
  else if str_in "/track" url then JObj [("exit_code", JInt 0); ("result", JStr "Blue in Green")]
  else if str_in "/battery" url then JObj [("exit_code", JInt 0); ("result", JStr " 85% ")]
  else JObj [("exit_code", JInt 1); ("error_msg", JStr "unknown action")].

Definition env_answers : Env :=
{| fs_exists := fs_exists Samples.env; fs_home := fs_home Samples.env;
   run_which := run_which Samples.env;
   os_popen := os_popen Samples.env; os_poll := os_poll Samples.env;
   os_terminate := os_terminate Samples.env; os_wait := os_wait Samples.env;
   os_kill := os_kill Samples.env;
   utcnow := utcnow Samples.env; isoformat := isoformat Samples.env;
   http_get := fun url _ _ => Ok (Samples.ok_response (body url)) |}.

(** The same world, but the speaker went away after the volume was read:
    the server reports the time-out of the next command. *)
Definition env_gone : Env :=
{| fs_exists := fs_exists Samples.env; fs_home := fs_home Samples.env;
   run_which := run_which Samples.env;
   os_popen := os_popen Samples.env; os_poll := os_poll Samples.env;
   os_terminate := os_terminate Samples.env; os_wait := os_wait Samples.env;
   os_kill := os_kill Samples.env;
   utcnow := utcnow Samples.env; isoformat := isoformat Samples.env;
   http_get := fun url _ _ =>
     if str_in "/volume" url then Ok (Samples.ok_response (body url))
     else Ok (Samples.ok_response
                (JObj [("exit_code", JInt 1);
                       ("error_msg", JStr "Error: speaker timed out")])) |}.

Definition blank (speaker_name : string) : Speaker.t :=
  {| Speaker.name := speaker_name; Speaker.volume := JNull;
     Speaker.is_muted := JNull; Speaker.playback_state := JNull;
     Speaker.current_track := JNull; Speaker.battery_level := JNull;
     Speaker.is_offline := JBool false; Speaker.error_message := JNull |}.

(** [int] on a string of decimal digits, as far as the samples need it. *)
Definition digit (c : ascii) : option Z :=
  let n := nat_of_ascii c in
  if ((48 <=? n) && (n <=? 57))%nat then Some (Z.of_nat n - 48) else None.

Fixpoint digits (acc : Z) (s : string) : option Z :=
  match s with
  | EmptyString => Some acc
  | String c rest =>
      match digit c with
      | Some v => digits (10 * acc + v) rest
      | None => None
      end
  end.

Definition decimal (s : string) : option Z :=
  match strip s with
  | EmptyString => None
  | t => digits 0 t
  end.

End Samples2.

(* ===================================================================== *)
(** * Part II. Properties                                                 *)
(* ===================================================================== *)

(** ** Strings *)

Lemma prefix_app (n h : string) :
  String.prefix n h = true <-> exists suf, h = n +:+ suf.
Proof.
  revert h. induction n as [|c n IH]; intros h; simpl.
  - split; [intros _; exists h; reflexivity | intros _; destruct h; reflexivity].
  - destruct h as [|d h]; simpl.
    + split; [discriminate | intros [suf H]; discriminate].
    + destruct (Ascii.ascii_dec c d) as [->|Hne].
      * rewrite IH. split; intros [suf H]; exists suf.
        -- now rewrite H.
        -- now inversion H.
      * split; [discriminate | intros [suf H]; inversion H; congruence].
Qed.

Lemma str_in_app (n h : string) :
  str_in n h = true <-> exists pre suf, h = pre +:+ n +:+ suf.
Proof.
  induction h as [|d h IH]; cbn [str_in].
  - rewrite orb_false_r, prefix_app. split.
    + intros [suf H]. exists "", suf. exact H.
    + intros [pre [suf H]]. destruct pre; simpl in H; [now exists suf | discriminate].
  - rewrite orb_true_iff, prefix_app, IH. split.
    + intros [[suf H] | [pre [suf H]]].
      * exists "", suf. exact H.
      * exists (String d pre), suf. simpl. now rewrite H.
    + intros [pre [suf H]]. destruct pre as [|e pre]; simpl in H.
      * left. now exists suf.
      * right. inversion H. now exists pre, suf.
Qed.

Lemma app_nonempty_l (pre n suf : string) :
  n <> "" -> pre +:+ n +:+ suf <> "".
Proof. intros Hn. destruct pre, n; cbn; first [congruence | discriminate]. Qed.

(** ** The offline classifier *)

(** C6. [_is_timeout_or_connection_error] answers true exactly when the
    lowercased message contains one of the eight markers, and false on an
    absent or an empty message. *)
Theorem offline_classifier_iff (error_msg : option string) :
  (_is_timeout_or_connection_error error_msg = true <->
   exists msg marker pre suf,
     error_msg = Some msg
     /\ In marker [ "timed out"; "timeout"; "connection refused"; "unreachable";
                    "no route to host"; "network is unreachable";
                    "connecttimeouterror"; "max retries exceeded" ]
     /\ lower msg = pre +:+ marker +:+ suf)
  /\ _is_timeout_or_connection_error None = false
  /\ _is_timeout_or_connection_error (Some "") = false.
Proof.
  split; [|split; reflexivity].
  destruct error_msg as [msg|]; unfold _is_timeout_or_connection_error.
  - destruct (String.eqb_spec msg "") as [->|Hne].
    + split; [discriminate|].
      intros (msg & marker & pre & suf & Hm & Hin & Hl).
      inversion Hm; subst msg. simpl in Hl. exfalso.
      symmetry in Hl. revert Hl. apply app_nonempty_l.
      simpl in Hin. intuition (subst; discriminate).
    + rewrite existsb_exists. split.
      * intros (marker & Hin & Hs). apply str_in_app in Hs as (pre & suf & Hs).
        now exists msg, marker, pre, suf.
      * intros (msg' & marker & pre & suf & Hm & Hin & Hl).
        inversion Hm; subst msg'. exists marker. split; [exact Hin|].
        apply str_in_app. now exists pre, suf.
  - split; [discriminate | intros (msg & ? & ? & ? & Hm & _); discriminate].
Qed.

Example offline_connection_refused :
  _is_timeout_or_connection_error (Some "[Errno 111] Connection refused") = true.
Proof. reflexivity. Qed.

Example offline_not_found :
  _is_timeout_or_connection_error (Some "HTTP 404") = false.
Proof. reflexivity. Qed.

(** ** The supervisor: what its methods leave untouched *)

Ltac break_match :=
  match goal with
  | |- context [match ?x with _ => _ end] => destruct x eqn:?
  | H : context [match ?x with _ => _ end] |- _ => destruct x eqn:?
  end.

Lemma first_existing_frame env paths m :
  svc (snd (first_existing env paths m)) = svc m
  /\ clock (snd (first_existing env paths m)) = clock m.
Proof.
  revert m. induction paths as [|path rest IH]; intros m; simpl; [auto|].
  destruct (fs_exists env (str_path (Path path))) as [[|]|e]; simpl; [auto| |auto].
  destruct (IH (record_event (EvExists (str_path (Path path))) m)) as (H1 & H2).
  rewrite H1, H2. auto.
Qed.

(** An exception of the loop over the candidates is one of an existence
    test. *)
Lemma first_existing_raises env paths e : forall m,
  fst (first_existing env paths m) = Raise e -> exists p, fs_exists env p = Raise e.
Proof.
  induction paths as [|path rest IH]; intros m; simpl; [discriminate|].
  destruct (fs_exists env (str_path (Path path))) as [[|]|e'] eqn:Hex; simpl.
  - discriminate.
  - apply IH.
  - intros H. inversion H; subst e'. eauto.
Qed.

#[local] Arguments first_existing : simpl never.
#[local] Arguments possible_paths : simpl never.

Lemma resolve_from_path_frame env command m :
  svc (snd (_resolve_from_path env command m)) = svc m
  /\ clock (snd (_resolve_from_path env command m)) = clock m.
Proof.
  unfold _resolve_from_path, path_exists.
  repeat (break_match; simpl); eauto.
Qed.

Lemma search_executable_frame env m :
  svc (snd (search_executable env m)) = svc m
  /\ clock (snd (search_executable env m)) = clock m.
Proof.
  unfold search_executable, path_home.
  destruct (fs_home env) as [h|e]; simpl; [|auto].
  match goal with |- context [first_existing env ?ps ?m0] =>
    pose proof (first_existing_frame env ps m0) as (F1 & F2);
    destruct (first_existing env ps m0) as [[[path|]|e] m3] end; simpl in *; auto.
  pose proof (resolve_from_path_frame env "sonos-http-api-server" m3) as (R1 & R2).
  destruct (_resolve_from_path env "sonos-http-api-server" m3) as [[r|] m4];
    simpl in *; rewrite R1, R2, F1, F2; auto.
Qed.

Lemma search_executable_raises env m e :
  fst (search_executable env m) = Raise e ->
  (exists p, fs_exists env p = Raise e) \/ fs_home env = Raise e.
Proof.
  unfold search_executable, path_home.
  destruct (fs_home env) as [h|e'] eqn:Hh; simpl.
  - match goal with |- context [first_existing env ?ps ?m0] =>
      pose proof (first_existing_raises env ps e m0) as F;
      destruct (first_existing env ps m0) as [[[path|]|e'] m3] end; simpl in *.
    + discriminate.
    + destruct (_resolve_from_path env "sonos-http-api-server" m3) as [[r|] m4];
        discriminate.
    + intros H. inversion H; subst e'. left. apply F. reflexivity.
  - intros H. inversion H; subst e'. right. reflexivity.
Qed.

Lemma get_executable_path_frame settings env m :
  svc (snd (_get_executable_path settings env m)) = svc m
  /\ clock (snd (_get_executable_path settings env m)) = clock m.
Proof.
  unfold _get_executable_path, path_exists.
  destruct (soco_cli_executable_path settings) as [s|]; [|apply search_executable_frame].
  destruct (negb (String.eqb s "")); [|apply search_executable_frame].
  destruct (fs_exists env (str_path (Path s))) as [[|]|e]; simpl; auto.
  destruct (search_executable_frame env (record_event (EvExists (str_path (Path s))) m))
    as (H1 & H2).
  rewrite H1, H2. auto.
Qed.

(** Whatever [_get_executable_path] raises was raised by an existence test
    or by the home lookup: no failure of [which] comes out of it. *)
Lemma get_executable_path_raises settings env m e :
  fst (_get_executable_path settings env m) = Raise e ->
  (exists p, fs_exists env p = Raise e) \/ fs_home env = Raise e.
Proof.
  unfold _get_executable_path, path_exists.
  destruct (soco_cli_executable_path settings) as [s|]; [|apply search_executable_raises].
  destruct (negb (String.eqb s "")); [|apply search_executable_raises].
  destruct (fs_exists env (str_path (Path s))) as [[|]|e'] eqn:Hex; simpl.
  - discriminate.
  - apply search_executable_raises.
  - intros H. inversion H; subst e'. left. eauto.
Qed.

Lemma get_executable_path_returns settings env m :
  (forall p, returns (fs_exists env p)) ->
  returns (fs_home env) ->
  returns (fst (_get_executable_path settings env m)).
Proof.
  intros Hex Hhome.
  destruct (fst (_get_executable_path settings env m)) as [r|e] eqn:Hg;
    [exists r; reflexivity|].
  exfalso. apply get_executable_path_raises in Hg as [[p Hp]|Hh].
  - destruct (Hex p) as [b Hb]. congruence.
  - destruct Hhome as [h Hh']. congruence.
Qed.

Lemma readiness_loop_frame settings env iterations m :
  svc (snd (readiness_loop settings env iterations m)) = svc m
  /\ (clock m <= clock (snd (readiness_loop settings env iterations m))
      <= clock m + length iterations)%nat
  /\ returns (fst (readiness_loop settings env iterations m)).
Proof.
  revert m. induction iterations as [|i rest IH]; intros m; cbn [readiness_loop].
  - unfold returns. simpl. repeat split; eauto; lia.
  - destruct (negb (is_running env (sleep 1 m))).
    + unfold returns. simpl. repeat split; eauto; lia.
    + unfold probe.
      set (m2 := record_event _ (sleep 1 m)).
      assert (Hsvc : svc m2 = svc m) by reflexivity.
      assert (Hclk : clock m2 = (clock m + 1)%nat) by reflexivity.
      destruct (IH m2) as (I1 & I2 & I3).
      destruct (http_get env _ 2 (clock (sleep 1 m))) as [response|e].
      * destruct (status_code response =? 200).
        -- unfold returns. simpl. repeat split; eauto; lia.
        -- rewrite I1, Hsvc. simpl length. repeat split; auto; lia.
      * rewrite I1, Hsvc. simpl length. repeat split; auto; lia.
Qed.

(** [start_server] converts every exception into [False]. *)
Lemma start_server_returns settings env m :
  returns (fst (start_server settings env m)).
Proof.
  unfold start_server, returns.
  destruct (is_running env m); simpl; [eauto|].
  destruct (_is_starting (svc m)); simpl; [eauto|].
  destruct (start_server_body settings env (set_is_starting true m)) as [[b|e] m2];
    simpl; eauto.
Qed.

Lemma ensure_server_running_returns settings env m :
  fst (ensure_server_running settings env m) = Ok tt.
Proof.
  unfold ensure_server_running.
  destruct (negb (is_running env m)); [|reflexivity].
  pose proof (start_server_returns settings env m) as [b Hb].
  destruct (start_server settings env m) as [[b'|e] m']; simpl in *;
    [reflexivity | discriminate].
Qed.

Lemma start_server_consistent settings env m :
  consistent m -> consistent (snd (start_server settings env m)).
Proof.
  unfold start_server, consistent. intros Hc.
  destruct (is_running env m); simpl; [exact Hc|].
  destruct (_is_starting (svc m)); simpl; [exact Hc|].
  unfold start_server_body.
  pose proof (get_executable_path_frame settings env (set_is_starting true m)) as (G1 & _).
  destruct (_get_executable_path settings env (set_is_starting true m)) as [[exe|e] m1];
    simpl in G1.
  - destruct (os_popen env _ _) as [p|e].
    + match goal with |- context [readiness_loop settings env ?its ?m0] =>
        pose proof (readiness_loop_frame settings env its m0) as (L1 & _ & _);
        destruct (readiness_loop settings env its m0) as [r m5] end.
      simpl in *. rewrite L1. simpl. discriminate.
    + simpl. rewrite G1. simpl. exact Hc.
  - simpl. rewrite G1. simpl. exact Hc.
Qed.

Lemma stop_server_cleared env m :
  _process (svc m) <> None ->
  _process (svc (snd (stop_server env m))) = None
  /\ _started_at (svc (snd (stop_server env m))) = None.
Proof.
  unfold stop_server. destruct (_process (svc m)) as [p|]; [intros _|congruence].
  destruct (terminate_and_wait env p m) as [[u|e] m1].
  - simpl. auto.
  - destruct e; try (simpl; auto; fail).
    destruct (os_kill env p _); simpl; auto.
Qed.

Lemma reachable_consistent settings env m :
  reachable settings env m -> consistent m.
Proof.
  induction 1 as [|m H IH|m H IH|m H IH|m e H IH|m n H IH].
  - intros _. reflexivity.
  - now apply start_server_consistent.
  - intros _. destruct (_process (svc m)) as [p|] eqn:Hp.
    + apply stop_server_cleared. congruence.
    + unfold stop_server. rewrite Hp. simpl. auto.
  - unfold ensure_server_running. destruct (negb (is_running env m)); [|exact IH].
    pose proof (start_server_consistent settings env m IH) as Hc.
    destruct (start_server settings env m) as [[b|e] m']; exact Hc.
  - exact IH.
  - exact IH.
Qed.

(** ** [stop_server] *)

(** C3, where the code leaves it. [stop_server] runs [Popen.kill()] from the
    handler of [subprocess.TimeoutExpired], where the [except Exception] of
    the same [try] does not reach. When the child outlives the wait of five
    seconds and [kill()] raises, the call clears the handle and the start
    time stamp and then raises that exception to its caller: it returns
    neither true nor false. *)
Theorem stop_server_kill_raises env m p msg e :
  _process (svc m) = Some p ->
  os_terminate env p (clock m) = Ok tt ->
  os_wait env p 5 (clock m) = Raise (TimeoutExpired msg) ->
  os_kill env p (clock m) = Raise e ->
  fst (stop_server env m) = Raise e
  /\ _process (svc (snd (stop_server env m))) = None
  /\ _started_at (svc (snd (stop_server env m))) = None
  /\ trace (snd (stop_server env m))
     = (trace m ++ [EvTerminate p; EvWait p 5; EvKill p])%list.
Proof.
  intros Hp Ht Hw Hk. unfold stop_server, terminate_and_wait. rewrite Hp.
  cbn [record_event clock]. rewrite Ht, Hw. cbn [record_event clock]. rewrite Hk.
  cbn. repeat split. now rewrite <- !List.app_assoc.
Qed.

(** The supervisor of the world whose child can be neither terminated in
    time nor killed, started and then stopped. *)
Lemma stop_server_kill_raises_witness :
  let started := snd (start_server Samples.settings Samples.env_stuck boot) in
  reachable Samples.settings Samples.env_stuck started
  /\ fst (start_server Samples.settings Samples.env_stuck boot) = Ok true
  /\ fst (stop_server Samples.env_stuck started)
     = Raise (OtherException "PermissionError" "[Errno 1] Operation not permitted")
  /\ _process (svc (snd (stop_server Samples.env_stuck started))) = None
  /\ _started_at (svc (snd (stop_server Samples.env_stuck started))) = None.
Proof.
  intros started.
  split; [exact (reach_start _ _ _ (reach_boot _ _))|].
  split; [reflexivity|].
  destruct (stop_server_kill_raises Samples.env_stuck started {| pid := 4242 |}
              "Command 'sonos-http-api-server' timed out after 5 seconds"
              (OtherException "PermissionError" "[Errno 1] Operation not permitted")
              eq_refl eq_refl eq_refl eq_refl) as (H1 & H2 & H3 & _).
  auto.
Defined.

(** ** [start_server] when the server runs *)

(** C4. When [is_running] is true, [start_server] returns true at once: the
    machine is the one it was given, so the handle, the start time stamp and
    the trace are unchanged and no subprocess was spawned. *)
Theorem start_server_already_running settings env m :
  is_running env m = true ->
  fst (start_server settings env m) = Ok true
  /\ snd (start_server settings env m) = m
  /\ _process (svc (snd (start_server settings env m))) = _process (svc m)
  /\ _started_at (svc (snd (start_server settings env m))) = _started_at (svc m)
  /\ spawns (trace (snd (start_server settings env m))) = spawns (trace m).
Proof.
  intros Hrun. unfold start_server. rewrite Hrun. simpl. auto.
Qed.

Lemma start_server_already_running_witness :
  is_running Samples.env Samples.holding = true
  /\ start_server Samples.settings Samples.env Samples.holding
     = (Ok true, Samples.holding).
Proof.
  split; [reflexivity|].
  destruct (start_server_already_running Samples.settings Samples.env Samples.holding
              eq_refl) as (H1 & H2 & _).
  rewrite (surjective_pairing (start_server _ _ _)), H1, H2. reflexivity.
Defined.

(** A start from scratch spawns one subprocess, a second start none. *)
Example start_twice_spawns_once :
  let m1 := snd (start_server Samples.settings Samples.env boot) in
  let m2 := snd (start_server Samples.settings Samples.env m1) in
  spawns (trace m1) = 1%nat /\ spawns (trace m2) = 1%nat /\ m2 = m1.
Proof. vm_compute. auto. Qed.

(** ** [get_status] *)

(** C9, as stated, fails: a supervisor that still holds the handle of a child
    that has exited is not running, yet its status carries the child's pid. *)
Lemma get_status_reports_pid_of_exited_child :
  ~ (forall settings env m,
       is_running env m = false ->
       processId (fst (get_status settings env m)) = None
       /\ serverUrl (fst (get_status settings env m)) = None
       /\ snd (get_status settings env m) = m).
Proof.
  intros H.
  destruct (H Samples.settings Samples.env_exited Samples.holding eq_refl) as (Hpid & _).
  vm_compute in Hpid. discriminate Hpid.
Qed.

(** C9, amended. When [is_running] is false, the status has [isRunning] false
    and no [serverUrl]; its [processId] is the pid of the handle the supervisor
    holds, so it is absent exactly when no handle is held; and the supervisor
    is unchanged. *)
Theorem get_status_not_running settings env m :
  is_running env m = false ->
  let st := fst (get_status settings env m) in
  isRunning st = false
  /\ serverUrl st = None
  /\ processId st = option_map pid (_process (svc m))
  /\ (processId st = None <-> _process (svc m) = None)
  /\ snd (get_status settings env m) = m.
Proof.
  intros Hrun. unfold get_status. simpl. rewrite Hrun.
  destruct (_process (svc m)) as [p|]; simpl; repeat split; auto; discriminate.
Qed.

Lemma get_status_not_running_witness :
  is_running Samples.env_exited Samples.holding = false
  /\ serverUrl (fst (get_status Samples.settings Samples.env_exited Samples.holding)) = None
  /\ processId (fst (get_status Samples.settings Samples.env_exited Samples.holding))
     = Some 4242.
Proof.
  split; [reflexivity|].
  destruct (get_status_not_running Samples.settings Samples.env_exited Samples.holding
              eq_refl) as (_ & Hurl & Hpid & _).
  split; [exact Hurl | exact Hpid].
Defined.

(** ** The readiness loop of [start_server] *)

Section ReadinessLoop.

Context (settings : Settings) (env : Env) (p : Popen).

#[local] Abbreviation after_iteration := (after_iteration settings).
#[local] Abbreviation quiet_until := (quiet_until settings env p).

Lemma readiness_loop_step i rest m :
  _process (svc m) = Some p ->
  readiness_loop settings env (i :: rest) m =
    if negb (alive_at env p (clock m + 1)) then (Ok false, sleep 1 m)
    else if ready_at settings env (clock m + 1) then (Ok true, after_iteration m)
    else readiness_loop settings env rest (after_iteration m).
Proof.
  intros Hp. cbn [readiness_loop]. unfold is_running, alive_at, ready_at, probe.
  cbn [sleep svc clock]. rewrite Hp.
  destruct (os_poll env p (clock m + 1)); cbn [negb]; [reflexivity|].
  fold (after_iteration m).
  destruct (http_get env _ 2 (clock m + 1)) as [response|e]; [|reflexivity].
  destruct (status_code response =? 200); reflexivity.
Qed.

Lemma quiet_until_shift m k :
  quiet_until m (S k) -> quiet_until (after_iteration m) k.
Proof.
  intros H j Hj. specialize (H (S j) ltac:(lia)).
  cbn [after_iteration record_event sleep clock].
  replace (clock m + 1 + j + 1)%nat with (clock m + S j + 1)%nat by lia. exact H.
Qed.

Lemma quiet_until_first m k :
  quiet_until m (S k) ->
  alive_at env p (clock m + 1) = true /\ ready_at settings env (clock m + 1) = false.
Proof.
  intros H. specialize (H 0%nat ltac:(lia)).
  now replace (clock m + 0 + 1)%nat with (clock m + 1)%nat in H by lia.
Qed.

Lemma after_iteration_process m :
  _process (svc m) = Some p -> _process (svc (after_iteration m)) = Some p.
Proof. intros H. exact H. Qed.

Lemma readiness_loop_exited iterations : forall m k,
  _process (svc m) = Some p ->
  (k < length iterations)%nat ->
  quiet_until m k ->
  alive_at env p (clock m + k + 1) = false ->
  fst (readiness_loop settings env iterations m) = Ok false
  /\ clock (snd (readiness_loop settings env iterations m)) = (clock m + k + 1)%nat.
Proof.
  induction iterations as [|i rest IH]; intros m k Hp Hk Hq Hdead;
    [simpl in Hk; lia|].
  rewrite (readiness_loop_step i rest m Hp).
  destruct k as [|k].
  - replace (clock m + 0 + 1)%nat with (clock m + 1)%nat in Hdead by lia.
    rewrite Hdead. cbn. split; [reflexivity | lia].
  - destruct (quiet_until_first m k Hq) as [Ha Hn]. rewrite Ha, Hn. cbn [negb].
    destruct (IH (after_iteration m) k (after_iteration_process m Hp)) as [R1 R2].
    + simpl in Hk. lia.
    + now apply quiet_until_shift.
    + cbn [after_iteration record_event sleep clock].
      replace (clock m + 1 + k + 1)%nat with (clock m + S k + 1)%nat by lia.
      exact Hdead.
    + rewrite R1, R2. cbn [after_iteration record_event sleep clock].
      split; [reflexivity | lia].
Qed.

Lemma readiness_loop_ready iterations : forall m k,
  _process (svc m) = Some p ->
  (k < length iterations)%nat ->
  quiet_until m k ->
  alive_at env p (clock m + k + 1) = true ->
  ready_at settings env (clock m + k + 1) = true ->
  fst (readiness_loop settings env iterations m) = Ok true
  /\ clock (snd (readiness_loop settings env iterations m)) = (clock m + k + 1)%nat.
Proof.
  induction iterations as [|i rest IH]; intros m k Hp Hk Hq Hlive Hready;
    [simpl in Hk; lia|].
  rewrite (readiness_loop_step i rest m Hp).
  destruct k as [|k].
  - replace (clock m + 0 + 1)%nat with (clock m + 1)%nat in Hlive, Hready by lia.
    rewrite Hlive, Hready. cbn. split; [reflexivity | lia].
  - destruct (quiet_until_first m k Hq) as [Ha Hn]. rewrite Ha, Hn. cbn [negb].
    destruct (IH (after_iteration m) k (after_iteration_process m Hp)) as [R1 R2].
    + simpl in Hk. lia.
    + now apply quiet_until_shift.
    + cbn [after_iteration record_event sleep clock].
      replace (clock m + 1 + k + 1)%nat with (clock m + S k + 1)%nat by lia.
      exact Hlive.
    + cbn [after_iteration record_event sleep clock].
      replace (clock m + 1 + k + 1)%nat with (clock m + S k + 1)%nat by lia.
      exact Hready.
    + rewrite R1, R2. cbn [after_iteration record_event sleep clock].
      split; [reflexivity | lia].
Qed.

Lemma readiness_loop_unconfirmed iterations : forall m,
  _process (svc m) = Some p ->
  quiet_until m (length iterations) ->
  fst (readiness_loop settings env iterations m) = Ok true
  /\ clock (snd (readiness_loop settings env iterations m))
     = (clock m + length iterations)%nat.
Proof.
  induction iterations as [|i rest IH]; intros m Hp Hq.
  - cbn. split; [reflexivity | lia].
  - rewrite (readiness_loop_step i rest m Hp).
    destruct (quiet_until_first m _ Hq) as [Ha Hn]. rewrite Ha, Hn. cbn [negb].
    destruct (IH (after_iteration m) (after_iteration_process m Hp)) as [R1 R2].
    + now apply quiet_until_shift.
    + rewrite R1, R2. cbn [after_iteration record_event sleep clock length].
      split; [reflexivity | lia].
Qed.

End ReadinessLoop.

(** C5. After a successful spawn of child [p] at time [t0], [start_server]
    sleeps one second before each of at most ten iterations; iteration [k]
    (from 0) sees the world at [t0 + k + 1]. If [k] is the first iteration at
    which the child has exited, the call returns false there; if it is the
    first at which the probe answers 200, the call returns true there; and if
    the child lives through ten iterations without a 200, the call returns
    true after the tenth. [_is_starting] is reset on the way out. *)
Theorem start_server_readiness settings env m exe p :
  is_running env m = false ->
  _is_starting (svc m) = false ->
  fst (_get_executable_path settings env (set_is_starting true m)) = Ok exe ->
  os_popen env (server_args settings exe) (clock m) = Ok p ->
  let r := fst (start_server settings env m) in
  let m' := snd (start_server settings env m) in
  (clock m <= clock m' <= clock m + 10)%nat
  /\ _is_starting (svc m') = false
  /\ (forall k, (k < 10)%nat -> quiet_until settings env p m k ->
        alive_at env p (clock m + k + 1) = false ->
        r = Ok false /\ clock m' = (clock m + k + 1)%nat)
  /\ (forall k, (k < 10)%nat -> quiet_until settings env p m k ->
        alive_at env p (clock m + k + 1) = true ->
        ready_at settings env (clock m + k + 1) = true ->
        r = Ok true /\ clock m' = (clock m + k + 1)%nat)
  /\ (quiet_until settings env p m 10 ->
        r = Ok true /\ clock m' = (clock m + 10)%nat).
Proof.
  intros Hrun Hst Hexe Hpopen r m'.
  subst r m'. unfold start_server. rewrite Hrun, Hst. cbn [orb].
  unfold start_server_body.
  remember (set_is_starting true m) as m0 eqn:Hm0.
  assert (Hc0 : clock m0 = clock m) by (subst m0; reflexivity).
  pose proof (get_executable_path_frame settings env m0) as (G1 & G2).
  destruct (_get_executable_path settings env m0) as [[exe'|e] m1]; simpl in Hexe;
    [|discriminate].
  inversion Hexe; subst exe'. simpl in G1, G2.
  cbn [record_event clock]. rewrite G2, Hc0, Hpopen.
  match goal with |- context [readiness_loop settings env ?its ?m4] =>
    set (loop := readiness_loop settings env its m4);
    assert (Hp4 : _process (svc m4) = Some p) by reflexivity;
    assert (Hc4 : clock m4 = clock m) by (cbn; rewrite G2; exact Hc0);
    assert (Hq4 : forall k, quiet_until settings env p m k ->
                            quiet_until settings env p m4 k)
      by (intros k Hq j Hj; rewrite Hc4; exact (Hq j Hj));
    pose proof (readiness_loop_frame settings env its m4) as (_ & Hbound & _);
    pose proof (readiness_loop_exited settings env p its) as Hexit;
    pose proof (readiness_loop_ready settings env p its) as Hready;
    pose proof (readiness_loop_unconfirmed settings env p its m4 Hp4) as Hlen;
    specialize (Hexit m4); specialize (Hready m4)
  end.
  fold loop in Hbound, Hexit, Hready, Hlen.
  rewrite Hc4 in *. simpl length in *.
  destruct loop as [rl ml]. cbn [fst snd] in *.
  cbn [set_is_starting with_svc svc clock _is_starting].
  split; [exact Hbound|]. split; [reflexivity|].
  split; [|split].
  - intros k Hk Hq Hdead.
    destruct (Hexit k Hp4 Hk (Hq4 k Hq) Hdead) as [-> ->]. auto.
  - intros k Hk Hq Hlive Hrdy.
    destruct (Hready k Hp4 Hk (Hq4 k Hq) Hlive Hrdy) as [-> ->]. auto.
  - intros Hq. destruct (Hlen (Hq4 10%nat Hq)) as [-> ->]. auto.
Qed.


(** The server of the sample world answers the first probe. *)
Lemma start_server_readiness_witness :
  fst (start_server Samples.settings Samples.env boot) = Ok true
  /\ clock (snd (start_server Samples.settings Samples.env boot)) = 1%nat.
Proof.
  destruct (start_server_readiness Samples.settings Samples.env boot
              "/opt/soco/bin/sonos-http-api-server" {| pid := 4242 |}
              eq_refl eq_refl eq_refl eq_refl) as (_ & _ & _ & Hready & _).
  apply (Hready 0%nat); [lia | intros j Hj; lia | reflexivity | reflexivity].
Defined.

(** A child that exits right after the spawn: false after one second. *)
Example start_server_child_exits :
  fst (start_server Samples.settings Samples.env_exited boot) = Ok false
  /\ clock (snd (start_server Samples.settings Samples.env_exited boot)) = 1%nat.
Proof. vm_compute. auto. Qed.

(** A server that answers from the third probe on: true after three seconds. *)
Example start_server_third_probe :
  fst (start_server Samples.settings Samples.env_slow boot) = Ok true
  /\ clock (snd (start_server Samples.settings Samples.env_slow boot)) = 3%nat.
Proof. vm_compute. auto. Qed.

(** A server that never answers while its process lives: true after ten. *)
Example start_server_never_answers :
  fst (start_server Samples.settings Samples.env_silent boot) = Ok true
  /\ clock (snd (start_server Samples.settings Samples.env_silent boot)) = 10%nat.
Proof. vm_compute. auto. Qed.

(** ** [_get_executable_path] *)

(** [str(Path(s))] is not always [s]: separators are collapsed, [.] components
    and a trailing slash are dropped. *)
Example str_path_normalises :
  str_path (Path "/opt/soco//bin/./sonos-http-api-server")
    = "/opt/soco/bin/sonos-http-api-server"
  /\ str_path (Path "/opt/soco/bin/") = "/opt/soco/bin"
  /\ str_path (Path "//srv/x") = "//srv/x"
  /\ str_path (Path "./x") = "x"
  /\ str_path (Path "/opt/soco/bin/sonos-http-api-server")
       = "/opt/soco/bin/sonos-http-api-server".
Proof. vm_compute. auto 6. Qed.

(** C8, as stated, fails, in both of its halves. A configured path written
    with a doubled separator exists, and what comes back is its normal form,
    not the configured text. And the method is not free of exceptions: where
    the existence test of the configured path raises, so does the method. *)
Lemma configured_path_not_verbatim :
  ~ (forall settings env m s,
       soco_cli_executable_path settings = Some s ->
       s <> "" ->
       fs_exists env (str_path (Path s)) = Ok true ->
       fst (_get_executable_path settings env m) = Ok s)
  /\ ~ (forall settings env m,
         returns (fst (_get_executable_path settings env m))).
Proof.
  split.
  - intros H.
    specialize (H {| soco_cli_url := "http://localhost:8000";
                     soco_cli_executable_path :=
                       Some "/opt/soco//bin/sonos-http-api-server";
                     soco_cli_port := 8000;
                     macros_file_path := "/data/macros.txt";
                     soco_cli_use_local_cache := false |}
                  Samples.env boot "/opt/soco//bin/sonos-http-api-server"
                  eq_refl ltac:(discriminate) eq_refl).
    vm_compute in H. discriminate H.
  - intros H.
    destruct (H Samples.settings Samples.env_denied boot) as [r Hr].
    vm_compute in Hr. discriminate Hr.
Qed.

(** C8, amended. When a non-empty path [s] is configured and the existence
    test of [Path(s)] answers true, [_get_executable_path] returns
    [str(Path(s))], the configured path in the normal form of [pathlib] (the
    configured text itself when that is already normal), and the only thing
    it does is that one existence test: no home directory, no candidate list,
    no [which]. In every configuration, the method returns whenever the
    existence tests and the home lookup do, and what it raises otherwise is
    what one of them raised: a failure of [which] never leaves it. *)
Theorem configured_executable_path settings env m :
  (forall s,
     soco_cli_executable_path settings = Some s ->
     s <> "" ->
     fs_exists env (str_path (Path s)) = Ok true ->
     _get_executable_path settings env m
       = (Ok (str_path (Path s)), record_event (EvExists (str_path (Path s))) m)
     /\ (str_path (Path s) = s ->
         fst (_get_executable_path settings env m) = Ok s))
  /\ ((forall p, returns (fs_exists env p)) ->
      returns (fs_home env) ->
      returns (fst (_get_executable_path settings env m)))
  /\ (forall e,
        fst (_get_executable_path settings env m) = Raise e ->
        (exists p, fs_exists env p = Raise e) \/ fs_home env = Raise e).
Proof.
  split; [|split; [apply get_executable_path_returns | apply get_executable_path_raises]].
  intros s Hs Hne Hex.
  assert (Heq : _get_executable_path settings env m
                = (Ok (str_path (Path s)), record_event (EvExists (str_path (Path s))) m)).
  { unfold _get_executable_path, path_exists. rewrite Hs.
    destruct (String.eqb_spec s "") as [->|_]; [congruence|].
    cbn [negb]. rewrite Hex. reflexivity. }
  split; [exact Heq|].
  intros Hnorm. rewrite Heq. simpl. now rewrite Hnorm.
Qed.

(** In the sample world the configured path is normal and is returned as it
    is, after one existence test. *)
Lemma configured_executable_path_witness :
  _get_executable_path Samples.settings Samples.env boot
  = (Ok "/opt/soco/bin/sonos-http-api-server",
     record_event (EvExists "/opt/soco/bin/sonos-http-api-server") boot)
  /\ returns (fst (_get_executable_path Samples.settings Samples.env boot)).
Proof.
  destruct (configured_executable_path Samples.settings Samples.env boot) as (H & R & _).
  split.
  - apply (H "/opt/soco/bin/sonos-http-api-server");
      [reflexivity | discriminate | reflexivity].
  - apply R; [intros p; eexists; reflexivity | eexists; reflexivity].
Defined.

(** Where the existence test of the configured path raises, the method
    raises the same, and [start_server], whose [try] it is called in, returns
    false without spawning anything. *)
Example configured_path_denied :
  fst (_get_executable_path Samples.settings Samples.env_denied boot)
  = Raise (OtherException "PermissionError"
             "[Errno 13] Permission denied: '/opt/soco/bin/sonos-http-api-server'")
  /\ fst (start_server Samples.settings Samples.env_denied boot) = Ok false
  /\ spawns (trace (snd (start_server Samples.settings Samples.env_denied boot))) = 0%nat.
Proof. vm_compute. auto. Qed.

(** With nothing configured and nothing installed, the search ends on the
    bare command name, after the home lookup, the ten existence tests and
    the [which] of the fallback steps. *)
Example fallback_to_command_name :
  let env0 :=
    {| fs_exists := fun _ => Ok false; fs_home := Ok "/home/pi";
       run_which := fun _ => Raise (OtherException "FileNotFoundError" "which");
       os_popen := os_popen Samples.env; os_poll := os_poll Samples.env;
       os_terminate := os_terminate Samples.env; os_wait := os_wait Samples.env;
       os_kill := os_kill Samples.env; utcnow := utcnow Samples.env;
       isoformat := isoformat Samples.env; http_get := http_get Samples.env |} in
  let st := {| soco_cli_url := ""; soco_cli_executable_path := None;
               soco_cli_port := 8000; macros_file_path := "";
               soco_cli_use_local_cache := false |} in
  fst (_get_executable_path st env0 boot) = Ok "sonos-http-api-server"
  /\ length (trace (snd (_get_executable_path st env0 boot))) = 12%nat.
Proof. vm_compute. auto. Qed.

(** ** The dispatcher *)

Lemma execute_command_unfold settings env speaker action args d :
  fst (execute_command settings env speaker action args d)
  = try_except
      (response_of_get speaker action args
         (get_outcome settings env (command_url settings speaker action args) d))
      (fun e => Ok (failed_response speaker action args e)).
Proof.
  unfold execute_command, get_outcome, client_get.
  pose proof (ensure_server_running_returns settings env (_soco_cli_service d)) as He.
  destruct (ensure_server_running settings env (_soco_cli_service d)) as [[u|e] m1];
    simpl in He; [|discriminate].
  cbn [snd]. destruct (_get_client (with_supervisor m1 d)) as [c d1] eqn:Hc.
  cbn [fst].
  assert (Hm : _soco_cli_service d1 = m1).
  { unfold _get_client in Hc. cbn in Hc.
    destruct (_client d) as [c0|]; [destruct (is_closed c0)|];
      inversion Hc; reflexivity. }
  rewrite Hm. reflexivity.
Qed.

Lemma list_names_unfold settings env path key d :
  fst (list_names settings env path key d)
  = try_except
      (names_of_response key (get_outcome settings env (server_url settings +:+ path) d))
      (fun _ => Ok []).
Proof.
  unfold list_names, get_outcome, client_get.
  pose proof (ensure_server_running_returns settings env (_soco_cli_service d)) as He.
  destruct (ensure_server_running settings env (_soco_cli_service d)) as [[u|e] m1];
    simpl in He; [|discriminate].
  cbn [snd]. destruct (_get_client (with_supervisor m1 d)) as [c d1] eqn:Hc.
  cbn [fst].
  assert (Hm : _soco_cli_service d1 = m1).
  { unfold _get_client in Hc. cbn in Hc.
    destruct (_client d) as [c0|]; [destruct (is_closed c0)|];
      inversion Hc; reflexivity. }
  rewrite Hm. reflexivity.
Qed.

(** C2. [execute_command] always returns a response, whatever the world does.
    After a status other than 200 the response has that status as exit code,
    the message [HTTP <status>] and an empty result; after an exception of the
    GET it has exit code -1, the text of the exception as message and an empty
    result. *)
Theorem execute_command_never_raises settings env speaker action args d :
  let outcome :=
    get_outcome settings env (command_url settings speaker action args) d in
  exists resp,
    fst (execute_command settings env speaker action args d) = Ok resp
    /\ (forall response, outcome = Ok response -> status_code response <> 200 ->
          resp = {| sonos_command_service.speaker := speaker;
                    action := action;
                    args := args;
                    exit_code := status_code response;
                    result := "";
                    error_msg := "HTTP " +:+ str_int (status_code response) |})
    /\ (forall e, outcome = Raise e ->
          resp = {| sonos_command_service.speaker := speaker;
                    action := action;
                    args := args;
                    exit_code := -1;
                    result := "";
                    error_msg := str_exn e |}).
Proof.
  intros outcome. rewrite execute_command_unfold. fold outcome.
  destruct outcome as [response|e] eqn:Ho.
  - cbn [response_of_get mbind Exc_bind exc_bind].
    destruct (status_code response =? 200) eqn:Hs; cbn [negb].
    + apply Z.eqb_eq in Hs.
      destruct (try_except _ _) as [resp|e'] eqn:Ht.
      * exists resp. split; [reflexivity|]. split; [|discriminate].
        intros response' Hr Hne. inversion Hr; subst. congruence.
      * exfalso. revert Ht. unfold try_except.
        match goal with |- match ?x with _ => _ end = _ -> _ => destruct x end;
          discriminate.
    + apply Z.eqb_neq in Hs. eexists. split; [reflexivity|].
      split; [|discriminate].
      intros response' Hr _. inversion Hr; subst. reflexivity.
  - eexists. split; [reflexivity|]. split; [discriminate|].
    intros e' He. inversion He; subst. reflexivity.
Qed.


(** Status 500: exit code 500 and the message [HTTP 500]. *)
Example execute_command_http_500 :
  fst (execute_command Samples.settings Samples.env_500 "Kitchen" "volume" ["25"]
         Samples.dispatcher)
  = Ok {| sonos_command_service.speaker := "Kitchen";
          action := "volume";
          args := ["25"];
          exit_code := 500;
          result := "";
          error_msg := "HTTP 500" |}.
Proof. vm_compute. reflexivity. Qed.

(** Connection refused: exit code -1, and the classifier calls it offline. *)
Example execute_command_connection_refused :
  fst (execute_command Samples.settings Samples.env_silent "Kitchen" "volume" []
         Samples.dispatcher)
  = Ok {| sonos_command_service.speaker := "Kitchen";
          action := "volume";
          args := [];
          exit_code := -1;
          result := "";
          error_msg := "[Errno 111] Connection refused" |}
  /\ _is_timeout_or_connection_error (Some "[Errno 111] Connection refused") = true.
Proof. vm_compute. auto. Qed.

(** The URL of a command: one quoted segment per part. *)
Example command_url_sample :
  command_url Samples.settings "Living Room" "play_fav" ["Jazz FM"; "a/b"]
  = "http://localhost:8000/Living%20Room/play_fav/Jazz%20FM/a/b"
  /\ command_url Samples.settings "Den" "mute" [] = "http://localhost:8000/Den/mute".
Proof. vm_compute. auto. Qed.

Lemma as_strs_map (l : list string) : as_strs (map JStr l) = Some l.
Proof. induction l as [|x l IH]; [reflexivity|]. cbn. now rewrite IH. Qed.

(** C7, as stated, fails. The server answers 200 with a body whose
    [exit_code] is the string [abc] and whose [result] is [25]. The
    constructor of the response refuses the exit code, the [except] of
    [execute_command] takes over, and the call returns exit code -1 and an
    empty result: neither field is the one of the body. *)
Lemma execute_command_refuses_ill_typed :
  exists response J resp,
    get_outcome Samples.settings Samples.env_ill_typed
      (command_url Samples.settings "Kitchen" "volume" []) Samples.dispatcher
    = Ok response
    /\ status_code response = 200
    /\ json_body response = Ok (JObj J)
    /\ dict_lookup "exit_code" J = Some (JStr "abc")
    /\ dict_lookup "result" J = Some (JStr "25")
    /\ fst (execute_command Samples.settings Samples.env_ill_typed "Kitchen" "volume" []
              Samples.dispatcher) = Ok resp
    /\ exit_code resp = -1
    /\ result resp = ""
    /\ result resp <> "25".
Proof.
  do 3 eexists.
  split; [reflexivity|]. split; [reflexivity|]. split; [reflexivity|].
  split; [reflexivity|]. split; [reflexivity|]. split; [vm_compute; reflexivity|].
  split; [reflexivity|]. split; [reflexivity | discriminate].
Qed.

(** C7, amended. When the GET of [execute_command] is answered with status
    200 and a body that decodes to an object [J] whose fields, where present,
    have the declared types (strings for [speaker], [action], [result] and
    [error_msg], a list of strings for [args], an integer for [exit_code]),
    the response takes [speaker], [action] and [args] from [J] where [J] has
    them and from the call otherwise, [exit_code] from [J] or else 0, and
    [result] and [error_msg] from [J] or else the empty string. *)
Theorem execute_command_defaults settings env speaker action args d response J :
  get_outcome settings env (command_url settings speaker action args) d = Ok response ->
  status_code response = 200 ->
  json_body response = Ok (JObj J) ->
  typed_fields J ->
  let field key default :=
    match dict_lookup key J with Some v => v | None => default end in
  exists resp,
    fst (execute_command settings env speaker action args d) = Ok resp
    /\ JStr (sonos_command_service.speaker resp) = field "speaker" (JStr speaker)
    /\ JStr (sonos_command_service.action resp) = field "action" (JStr action)
    /\ JArr (map JStr (sonos_command_service.args resp))
       = field "args" (JArr (map JStr args))
    /\ JInt (exit_code resp) = field "exit_code" (JInt 0)
    /\ JStr (result resp) = field "result" (JStr "")
    /\ JStr (error_msg resp) = field "error_msg" (JStr "").
Proof.
  intros Ho Hs Hj (T1 & T2 & T3 & T4 & T5 & T6) field.
  assert (F1 : exists x, field "speaker" (JStr speaker) = JStr x).
  { subst field. cbn beta. destruct (dict_lookup "speaker" J) as [v|] eqn:E; [exact (T1 v E) | eauto]. }
  assert (F2 : exists x, field "action" (JStr action) = JStr x).
  { subst field. cbn beta. destruct (dict_lookup "action" J) as [v|] eqn:E; [exact (T2 v E) | eauto]. }
  assert (F3 : exists x, field "args" (JArr (map JStr args)) = JArr (map JStr x)).
  { subst field. cbn beta. destruct (dict_lookup "args" J) as [v|] eqn:E; [exact (T3 v E) | eauto]. }
  assert (F4 : exists x, field "exit_code" (JInt 0) = JInt x).
  { subst field. cbn beta. destruct (dict_lookup "exit_code" J) as [v|] eqn:E; [exact (T4 v E) | eauto]. }
  assert (F5 : exists x, field "result" (JStr "") = JStr x).
  { subst field. cbn beta. destruct (dict_lookup "result" J) as [v|] eqn:E; [exact (T5 v E) | eauto]. }
  assert (F6 : exists x, field "error_msg" (JStr "") = JStr x).
  { subst field. cbn beta. destruct (dict_lookup "error_msg" J) as [v|] eqn:E; [exact (T6 v E) | eauto]. }
  destruct F1 as [sp F1], F2 as [ac F2], F3 as [ar F3], F4 as [ec F4],
           F5 as [re F5], F6 as [er F6].
  rewrite execute_command_unfold, Ho.
  cbn [response_of_get mbind Exc_bind exc_bind]. rewrite Hs, Hj.
  cbn [Z.eqb Pos.eqb negb get mbind Exc_bind exc_bind]. unfold str_list.
  fold (field "speaker" (JStr speaker)) (field "action" (JStr action))
       (field "args" (JArr (map JStr args))) (field "exit_code" (JInt 0))
       (field "result" (JStr "")) (field "error_msg" (JStr "")).
  rewrite F1, F2, F3, F4, F5, F6.
  unfold validate. cbn [as_str as_int as_str_list]. rewrite as_strs_map.
  cbn [try_except].
  eexists. split; [reflexivity|]. cbn. auto 7.
Qed.

Lemma execute_command_defaults_witness :
  exists resp,
    fst (execute_command Samples.settings Samples.env_partial "Kitchen" "volume" []
           Samples.dispatcher) = Ok resp
    /\ sonos_command_service.speaker resp = "Kitchen"
    /\ exit_code resp = 0
    /\ result resp = "25"
    /\ error_msg resp = "".
Proof.
  destruct (execute_command_defaults Samples.settings Samples.env_partial
              "Kitchen" "volume" [] Samples.dispatcher
              (Samples.ok_response (JObj [("exit_code", JInt 0); ("result", JStr "25")]))
              [("exit_code", JInt 0); ("result", JStr "25")]
              eq_refl eq_refl eq_refl)
    as (resp & Hr & H1 & _ & _ & H4 & H5 & H6).
  - repeat split; intros v Hv; vm_compute in Hv;
      first [discriminate Hv | inversion Hv; eexists; reflexivity].
  - exists resp. split; [exact Hr|].
    cbn in H1, H4, H5, H6. inversion H1; inversion H4; inversion H5; inversion H6. auto.
Defined.

(** A body with all six fields, all of the declared types. *)
Example execute_command_all_fields :
  response_of_get "kitchen" "vol" ["25"]
    (Ok (Samples.ok_response
           (JObj [("speaker", JStr "Kitchen"); ("action", JStr "volume");
                  ("args", JArr [JStr "25"]); ("exit_code", JInt 0);
                  ("result", JStr ""); ("error_msg", JStr "")])))
  = Ok {| sonos_command_service.speaker := "Kitchen"; action := "volume";
          args := ["25"]; exit_code := 0; result := ""; error_msg := "" |}.
Proof. reflexivity. Qed.

(** A body that is not an object has no [get]: exit code -1. *)
Example execute_command_body_not_object :
  try_except (response_of_get "Kitchen" "volume" []
                (Ok (Samples.ok_response (JArr []))))
             (fun e => Ok (failed_response "Kitchen" "volume" [] e))
  = Ok {| sonos_command_service.speaker := "Kitchen"; action := "volume";
          args := []; exit_code := -1; result := "";
          error_msg := "'list' object has no attribute 'get'" |}.
Proof. reflexivity. Qed.

(** ** The listing calls *)

Lemma filter_truthy_all (l : list json) :
  Forall (fun x => truthy x = true) (List.filter truthy l).
Proof.
  apply List.Forall_forall. intros x Hx. apply List.filter_In in Hx. tauto.
Qed.

Lemma truthy_no_empty_name (l : list json) :
  Forall (fun x => truthy x = true) l -> ~ In (JStr "") l.
Proof.
  intros H Hin. rewrite List.Forall_forall in H. specialize (H _ Hin). discriminate H.
Qed.

Ltac exc_simpl := cbn [mbind mret Exc_bind Exc_ret exc_bind].

Lemma names_of_response_truthy key r names :
  names_of_response key r = Ok names -> Forall (fun x => truthy x = true) names.
Proof.
  unfold names_of_response, truthy_elements.
  destruct r as [response|e]; exc_simpl; [|discriminate].
  destruct (negb (status_code response =? 200)).
  { intros H; inversion H. constructor. }
  destruct (json_body response) as [result|e]; exc_simpl; [|discriminate].
  destruct (contains key result) as [[|]|e]; exc_simpl; try discriminate.
  - destruct (getitem key result) as [v|e]; exc_simpl; [|discriminate].
    destruct (iter v) as [l|e]; exc_simpl; [|discriminate].
    intros H; inversion H. apply filter_truthy_all.
  - intros H; inversion H. constructor.
Qed.

Lemma list_names_contract settings env path key d :
  listing_contract settings env path key (list_names settings env path key) d.
Proof.
  unfold listing_contract. rewrite list_names_unfold.
  set (outcome := get_outcome settings env (server_url settings +:+ path) d).
  destruct (try_except (names_of_response key outcome) (fun _ => Ok []))
    as [names|e] eqn:Ht.
  2:{ exfalso. unfold try_except in Ht.
      destruct (names_of_response key outcome); discriminate. }
  exists names. split; [reflexivity|].
  assert (Hall : Forall (fun x => truthy x = true) names).
  { unfold try_except in Ht.
    destruct (names_of_response key outcome) as [l|e] eqn:Hn.
    - inversion Ht; subst. eapply names_of_response_truthy; eassumption.
    - inversion Ht. constructor. }
  split; [exact Hall|]. split; [now apply truthy_no_empty_name|].
  unfold names_of_response, truthy_elements in Ht.
  repeat split.
  - intros response Ho Hne. rewrite Ho in Ht.
    cbn [mbind mret Exc_bind Exc_ret exc_bind] in Ht.
    apply Z.eqb_neq in Hne. rewrite Hne in Ht. cbn in Ht. congruence.
  - intros response J Ho Hs Hj Hk. rewrite Ho in Ht.
    cbn [mbind mret Exc_bind Exc_ret exc_bind] in Ht.
    rewrite Hs, Hj in Ht. cbn in Ht. rewrite Hk in Ht. cbn in Ht. congruence.
  - intros e Ho. rewrite Ho in Ht. cbn in Ht. congruence.
  - intros response e Ho Hs Hj. rewrite Ho in Ht.
    cbn [mbind mret Exc_bind Exc_ret exc_bind] in Ht.
    rewrite Hs, Hj in Ht. cbn in Ht. congruence.
  - intros response J l Ho Hs Hj Hk. rewrite Ho in Ht.
    cbn [mbind mret Exc_bind Exc_ret exc_bind] in Ht.
    rewrite Hs, Hj in Ht. cbn in Ht. rewrite Hk in Ht. cbn in Ht. congruence.
Qed.


Example get_speakers_sample :
  fst (get_speakers Samples.settings Samples.env Samples.dispatcher)
  = Ok [JStr "Kitchen"; JStr "Den"]
  /\ fst (rediscover_speakers Samples.settings Samples.env Samples.dispatcher) = Ok []
  /\ fst (get_speakers Samples.settings Samples.env_500 Samples.dispatcher) = Ok []
  /\ fst (get_speakers Samples.settings Samples.env_silent Samples.dispatcher) = Ok [].
Proof. vm_compute. auto. Qed.

Example names_filtered :
  names_of_response "speakers"
    (Ok (Samples.ok_response
           (JObj [("speakers", JArr [JStr "Kitchen"; JStr ""; JNull; JStr "Den"])])))
  = Ok [JStr "Kitchen"; JStr "Den"].
Proof. reflexivity. Qed.


(** ** The request lock *)

Lemma lookup_set {A} (l : list A) (i j : nat) (x old : A) :
  l !! i = Some old ->
  <[i := x]> l !! j = if (j =? i)%nat then Some x else l !! j.
Proof.
  intros Hi. destruct (Nat.eqb_spec j i) as [->|Hne].
  - apply list_lookup_insert_eq. eapply lookup_lt_Some; eassumption.
  - apply list_lookup_insert_ne. congruence.
Qed.

Lemma wake_up_first_lookup waiters ps j y :
  _wake_up_first waiters ps !! j = Some y ->
  ps !! j = Some y
  \/ (y = Waiting true /\ head waiters = Some j /\ ps !! j = Some (Waiting false)).
Proof.
  unfold _wake_up_first. destruct waiters as [|k rest]; [auto|].
  destruct (ps !! k) as [[| |[|]| | |r]|] eqn:Hk; auto.
  rewrite (lookup_set ps k j (Waiting true) (Waiting false) Hk).
  destruct (Nat.eqb_spec j k) as [->|Hne]; [|auto].
  intros H; inversion H. right. auto.
Qed.

Lemma wake_up_first_keeps waiters ps j y :
  ps !! j = Some y -> (forall b, y <> Waiting b) ->
  _wake_up_first waiters ps !! j = Some y.
Proof.
  intros Hj Hy. unfold _wake_up_first. destruct waiters as [|k rest]; [exact Hj|].
  destruct (ps !! k) as [[| |[|]| | |r]|] eqn:Hk; auto.
  rewrite (lookup_set ps k j (Waiting true) (Waiting false) Hk).
  destruct (Nat.eqb_spec j k) as [->|Hne]; [|exact Hj].
  rewrite Hk in Hj. inversion Hj; subst y. exfalso. eapply Hy; reflexivity.
Qed.

Lemma observe_stuck h : fold_left observe h None = None.
Proof. induction h as [|e h IH]; [reflexivity | exact IH]. Qed.

Lemma in_flight_snoc h e :
  in_flight (h ++ [e]) = observe (in_flight h) e.
Proof. unfold in_flight. rewrite fold_left_app. reflexivity. Qed.

(** In a hypothesis about a caller of the updated list, tell the updated
    caller from the others. *)
Ltac split_lookup Hi :=
  repeat match goal with
  | H : <[?i := ?x]> ?l !! ?j = Some ?p |- _ =>
      rewrite (lookup_set l i j x _ Hi) in H;
      let E := fresh "E" in
      destruct (Nat.eqb_spec j i) as [E|E];
      [ try (inversion H; clear H); try subst j | ]
  end.

Ltac lock_contra I2 :=
  exfalso;
  match goal with
  | H : at_ _ !! _ = Some ?p, Hp : holds_lock ?p = true |- _ =>
      pose proof (I2 _ _ H Hp); congruence
  end.

Ltac inv_split :=
  split; [|split; [|split]];
  [ unfold one_holder | unfold holder_locked | unfold woken_first | unfold history_serial ];
  cbn [at_ _request_lock history _locked _waiters].

Lemma step_preserves settings l s s' :
  lock_invariant s -> step settings l s = Some s' -> lock_invariant s'.
Proof.
  intros (I1 & I2 & I3 & I4) Hstep.
  destruct l as [i|i|i|i|i r]; unfold step in Hstep.
  - (* Ensured *)
    destruct (at_ s !! i) as [[| | | | |]|] eqn:Hi; try discriminate.
    inversion Hstep; subst s'; clear Hstep.
    inv_split.
    + intros j k p q Hj Hk Hp Hq. split_lookup Hi; subst; try discriminate; eauto.
    + intros j p Hj Hp. split_lookup Hi; subst; try discriminate; eauto.
    + intros j Hj. split_lookup Hi; eauto.
    + destruct I4 as (o & Ho & Hiff). exists o. split; [exact Ho|].
      intros j. rewrite (lookup_set _ _ j _ _ Hi).
      destruct (Nat.eqb_spec j i) as [->|Hne]; [|apply Hiff].
      rewrite Hiff, Hi. split; discriminate.
  - (* Acquire *)
    destruct (at_ s !! i) as [[| | | | |]|] eqn:Hi; try discriminate.
    destruct (_locked (_request_lock s)) eqn:Hl; cbn [negb andb] in Hstep.
    + (* locked: queue up *)
      inversion Hstep; subst s'; clear Hstep.
      inv_split.
      * intros j k p q Hj Hk Hp Hq. split_lookup Hi; subst; try discriminate; eauto.
      * intros j p Hj Hp. split_lookup Hi; subst; try discriminate; eauto.
      * intros j Hj. split_lookup Hi. destruct (I3 j Hj) as [Hf _]. congruence.
      * destruct I4 as (o & Ho & Hiff). exists o. split; [exact Ho|].
        intros j. rewrite (lookup_set _ _ j _ _ Hi).
        destruct (Nat.eqb_spec j i) as [->|Hne]; [|apply Hiff].
        rewrite Hiff, Hi. split; discriminate.
    + destruct (_waiters (_request_lock s)) as [|w ws] eqn:Hw.
      * (* free and nobody waits: take the lock *)
        inversion Hstep; subst s'; clear Hstep.
        inv_split.
        -- intros j k p q Hj Hk Hp Hq. split_lookup Hi; subst; try reflexivity;
             try lock_contra I2; eauto.
        -- reflexivity.
        -- intros j Hj. split_lookup Hi. destruct (I3 j Hj) as [_ Hh].
           rewrite Hw in Hh. discriminate.
        -- destruct I4 as (o & Ho & Hiff). exists o. split; [exact Ho|].
           intros j. rewrite (lookup_set _ _ j _ _ Hi).
           destruct (Nat.eqb_spec j i) as [->|Hne]; [|apply Hiff].
           rewrite Hiff, Hi. split; discriminate.
      * (* free but somebody waits: queue up *)
        inversion Hstep; subst s'; clear Hstep.
        inv_split.
        -- intros j k p q Hj Hk Hp Hq. split_lookup Hi; subst; try discriminate; eauto.
        -- intros j p Hj Hp. split_lookup Hi; subst; try discriminate.
           lock_contra I2.
        -- intros j Hj. split_lookup Hi. destruct (I3 j Hj) as [Hf Hh].
           split; [reflexivity|]. rewrite Hw in Hh. exact Hh.
        -- destruct I4 as (o & Ho & Hiff). exists o. split; [exact Ho|].
           intros j. rewrite (lookup_set _ _ j _ _ Hi).
           destruct (Nat.eqb_spec j i) as [->|Hne]; [|apply Hiff].
           rewrite Hiff, Hi. split; discriminate.
  - (* Resume *)
    destruct (at_ s !! i) as [[| |[|]| | |]|] eqn:Hi; try discriminate.
    inversion Hstep; subst s'; clear Hstep.
    destruct (I3 i Hi) as [Hfree Hhead].
    inv_split.
    + intros j k p q Hj Hk Hp Hq. split_lookup Hi; subst; try reflexivity;
        try lock_contra I2; eauto.
    + reflexivity.
    + intros j Hj. split_lookup Hi. destruct (I3 j Hj) as [_ Hh]. congruence.
    + destruct I4 as (o & Ho & Hiff). exists o. split; [exact Ho|].
      intros j. rewrite (lookup_set _ _ j _ _ Hi).
      destruct (Nat.eqb_spec j i) as [->|Hne]; [|apply Hiff].
      rewrite Hiff, Hi. split; discriminate.
  - (* Send *)
    destruct (at_ s !! i) as [[| | | | |]|] eqn:Hi; try discriminate.
    destruct (calls s !! i) as [c|] eqn:Hc; try discriminate.
    inversion Hstep; subst s'; clear Hstep.
    inv_split.
    + intros j k p q Hj Hk Hp Hq. split_lookup Hi; subst; try reflexivity;
        first [ eapply (I1 _ i); eauto; fail
              | symmetry; eapply (I1 _ i); eauto; fail
              | eauto ].
    + intros j p Hj Hp. split_lookup Hi; subst; eauto.
    + intros j Hj. split_lookup Hi; eauto.
    + destruct I4 as (o & Ho & Hiff).
      assert (o = None) as ->.
      { destruct o as [k|]; [|reflexivity].
        pose proof (proj1 (Hiff k) eq_refl) as Hk.
        assert (k = i) by (eapply (I1 k i); eauto). subst k. congruence. }
      exists (Some i). split; [rewrite in_flight_snoc, Ho; reflexivity|].
      intros j. rewrite (lookup_set _ _ j _ _ Hi).
      destruct (Nat.eqb_spec j i) as [->|Hne]; [tauto|].
      split; [intros H; inversion H; congruence|].
      intros Hj. apply Hiff in Hj. discriminate.
  - (* Receive *)
    destruct (at_ s !! i) as [[| | | | |]|] eqn:Hi; try discriminate.
    destruct (calls s !! i) as [c|] eqn:Hc; try discriminate.
    inversion Hstep; subst s'; clear Hstep.
    assert (Hlocked : _locked (_request_lock s) = true) by (eapply I2; eauto).
    assert (Hnone : forall j p, <[i := Returned (result_of c r)]> (at_ s) !! j = Some p ->
                                holds_lock p = false).
    { intros j p Hj. split_lookup Hi; [reflexivity|].
      destruct (holds_lock p) eqn:Hp; [|reflexivity].
      exfalso. apply E. eapply (I1 j i); eauto. }
    assert (Hnowoken : forall j, <[i := Returned (result_of c r)]> (at_ s) !! j
                                 <> Some (Waiting true)).
    { intros j Hj. split_lookup Hi. destruct (I3 j Hj). congruence. }
    inv_split.
    + intros j k p q Hj Hk Hp Hq.
      apply wake_up_first_lookup in Hj as [Hj|(-> & _)]; [|discriminate].
      apply Hnone in Hj. congruence.
    + intros j p Hj Hp.
      apply wake_up_first_lookup in Hj as [Hj|(-> & _)]; [|discriminate].
      apply Hnone in Hj. congruence.
    + intros j Hj.
      apply wake_up_first_lookup in Hj as [Hj|(_ & Hh & _)].
      * exfalso. eapply Hnowoken; eassumption.
      * auto.
    + destruct I4 as (o & Ho & Hiff).
      assert (o = Some i) as -> by (now apply Hiff).
      exists None. split.
      * rewrite in_flight_snoc, Ho. cbn. now rewrite Nat.eqb_refl.
      * intros j. split; [discriminate|]. intros Hj.
        apply wake_up_first_lookup in Hj as [Hj|(Hy & _)]; [|discriminate].
        apply Hnone in Hj. discriminate.
Qed.


Lemma start_lookup cs i p :
  at_ (start cs) !! i = Some p -> p = AtEnsure.
Proof.
  unfold start. cbn [at_]. revert i.
  induction cs as [|c cs IH]; intros [|i]; cbn; try discriminate.
  - intros H; inversion H; reflexivity.
  - apply IH.
Qed.

Lemma start_invariant cs : lock_invariant (start cs).
Proof.
  split; [|split; [|split]].
  - intros i j p q Hi _ Hp _. apply start_lookup in Hi. subst p. discriminate.
  - intros i p Hi Hp. apply start_lookup in Hi. subst p. discriminate.
  - intros i Hi. apply start_lookup in Hi. discriminate.
  - exists None. split; [reflexivity|].
    intros i. split; [discriminate|]. intros Hi. apply start_lookup in Hi. discriminate.
Qed.

Lemma run_preserves settings schedule : forall s s',
  lock_invariant s -> run settings schedule s = Some s' -> lock_invariant s'.
Proof.
  induction schedule as [|l rest IH]; intros s s' Hinv Hrun; cbn in Hrun.
  - inversion Hrun; subst. exact Hinv.
  - destruct (step settings l s) as [s1|] eqn:Hstep; [|discriminate].
    eapply IH; [|exact Hrun]. eapply step_preserves; eassumption.
Qed.

(** A history that reads without a clash has, right after each issued call,
    nothing yet or the completion of that very call. *)
Lemma in_flight_alternates h1 i url h2 o :
  in_flight (h1 ++ Issue i url :: h2) = Some o ->
  (h2 = [] /\ o = Some i) \/ exists h3, h2 = Complete i :: h3.
Proof.
  unfold in_flight. rewrite fold_left_app. cbn [fold_left].
  destruct (fold_left observe h1 (Some None)) as [[k|]|]; cbn [observe].
  - rewrite observe_stuck. discriminate.
  - destruct h2 as [|e h3]; cbn [fold_left].
    + intros H; inversion H. left. auto.
    + destruct e as [j u|j]; cbn [observe].
      * rewrite observe_stuck. discriminate.
      * destruct (Nat.eqb_spec j i) as [->|Hne].
        -- intros _. right. eauto.
        -- rewrite observe_stuck. discriminate.
  - rewrite observe_stuck. discriminate.
Qed.

(** C1. Whatever the schedule of the concurrent callers of [execute_command]
    on one dispatcher, in every state they reach: at most one caller is
    between taking the request lock and returning, so at most one GET is in
    flight; while a GET is in flight no other caller can send its own; and
    the calls the server has seen are one at a time: each issued call is
    followed by its own completion before the next call is issued. *)
Theorem request_lock_serializes settings cs schedule s :
  run settings schedule (start cs) = Some s ->
  (forall i j p q,
     at_ s !! i = Some p -> at_ s !! j = Some q ->
     holds_lock p = true -> holds_lock q = true -> i = j)
  /\ (forall i j,
       at_ s !! i = Some InFlight -> at_ s !! j = Some InFlight -> i = j)
  /\ (forall i j,
       at_ s !! i = Some InFlight -> j <> i -> step settings (Send j) s = None)
  /\ (exists o, in_flight (history s) = Some o
                /\ forall i, o = Some i <-> at_ s !! i = Some InFlight)
  /\ (forall h1 i url h2,
       history s = (h1 ++ Issue i url :: h2)%list ->
       h2 = [] \/ exists h3, h2 = Complete i :: h3).
Proof.
  intros Hrun.
  destruct (run_preserves settings schedule _ _ (start_invariant cs) Hrun)
    as (I1 & I2 & I3 & I4).
  split; [exact I1|].
  split; [intros i j Hi Hj; eapply I1; eauto|].
  split.
  { intros i j Hi Hne. unfold step.
    destruct (at_ s !! j) as [[| | | | |]|] eqn:Hj; try reflexivity.
    exfalso. apply Hne. eapply (I1 j i); eauto. }
  split; [exact I4|].
  intros h1 i url h2 Hh. destruct I4 as (o & Ho & _). rewrite Hh in Ho.
  destruct (in_flight_alternates _ _ _ _ _ Ho) as [[-> _]|H]; auto.
Qed.

(** On the contended schedule the server sees the first call end before the
    second one is issued. *)
Lemma request_lock_serializes_witness :
  exists s,
    run Samples.settings Samples.contended (start Samples.two_calls) = Some s
    /\ history s
       = [ Issue 0 "http://localhost:8000/Kitchen/volume/25"; Complete 0;
           Issue 1 "http://localhost:8000/Den/mute"; Complete 1 ]
    /\ in_flight (history s) = Some None.
Proof.
  destruct (run Samples.settings Samples.contended (start Samples.two_calls))
    as [s|] eqn:Hrun; [|vm_compute in Hrun; discriminate Hrun].
  exists s. split; [reflexivity|].
  destruct (request_lock_serializes Samples.settings Samples.two_calls
              Samples.contended s Hrun) as (_ & _ & _ & (o & Ho & _) & _).
  vm_compute in Hrun. inversion Hrun; subst s. split; reflexivity.
Defined.

(** While the first caller's GET is in flight, the second caller is queued
    and cannot send. *)
Example second_caller_waits :
  let s := run Samples.settings [Ensured 0; Ensured 1; Acquire 0; Send 0; Acquire 1]
             (start Samples.two_calls) in
  option_map at_ s = Some [InFlight; Waiting false]
  /\ (forall s', s = Some s' -> step Samples.settings (Send 1) s' = None)
  /\ (forall s', s = Some s' -> step Samples.settings (Resume 1) s' = None).
Proof.
  vm_compute. split; [reflexivity|].
  split; intros s' H; inversion H; reflexivity.
Qed.

(* ===================================================================== *)
(** * Part III. Further properties of the two services                    *)
(* ===================================================================== *)

(** ** The supervisor: spawning *)

Lemma spawns_snoc t e :
  spawns (t ++ [e]) = (spawns t + match e with EvSpawn _ => 1 | _ => 0 end)%nat.
Proof.
  unfold spawns. rewrite List.filter_app, length_app.
  destruct e; reflexivity.
Qed.

#[local] Arguments spawns : simpl never.

Lemma first_existing_cons env path rest m :
  first_existing env (path :: rest) m =
    match fs_exists env (str_path (Path path)) with
    | Ok true => (Ok (Some path), record_event (EvExists (str_path (Path path))) m)
    | Ok false =>
        first_existing env rest (record_event (EvExists (str_path (Path path))) m)
    | Raise e => (Raise e, record_event (EvExists (str_path (Path path))) m)
    end.
Proof.
  change (first_existing env (path :: rest) m) with
    (match path_exists env (Path path) m with
     | (Ok found, m1) =>
         if found then (Ok (Some path), m1) else first_existing env rest m1
     | (Raise e, m1) => (Raise e, m1)
     end).
  unfold path_exists. destruct (fs_exists env _) as [[|]|e]; reflexivity.
Qed.

Lemma first_existing_spawns env paths m :
  spawns (trace (snd (first_existing env paths m))) = spawns (trace m).
Proof.
  revert m. induction paths as [|path rest IH]; intros m; [reflexivity|].
  rewrite first_existing_cons.
  destruct (fs_exists env (str_path (Path path))) as [[|]|e]; simpl.
  - rewrite spawns_snoc. lia.
  - rewrite IH. simpl. rewrite spawns_snoc. lia.
  - rewrite spawns_snoc. lia.
Qed.

Lemma resolve_from_path_spawns env command m :
  spawns (trace (snd (_resolve_from_path env command m))) = spawns (trace m).
Proof.
  unfold _resolve_from_path, path_exists.
  repeat (break_match; simpl); repeat rewrite spawns_snoc; lia.
Qed.

Lemma search_executable_spawns env m :
  spawns (trace (snd (search_executable env m))) = spawns (trace m).
Proof.
  unfold search_executable, path_home.
  destruct (fs_home env) as [h|e]; cbn [fst snd].
  - pose proof (first_existing_spawns env (possible_paths (Path h))
                  (record_event EvHome m)) as F.
    cbn [record_event trace] in F. rewrite spawns_snoc in F.
    destruct (first_existing env _ (record_event EvHome m)) as [[[path|]|e] m3];
      cbn [fst snd] in *; try lia.
    pose proof (resolve_from_path_spawns env "sonos-http-api-server" m3) as R.
    destruct (_resolve_from_path env "sonos-http-api-server" m3) as [[r|] m4];
      cbn [fst snd] in *; lia.
  - cbn [record_event trace]. rewrite spawns_snoc. lia.
Qed.

Lemma get_executable_path_spawns settings env m :
  spawns (trace (snd (_get_executable_path settings env m))) = spawns (trace m).
Proof.
  unfold _get_executable_path, path_exists.
  destruct (soco_cli_executable_path settings) as [s|]; [|apply search_executable_spawns].
  destruct (negb (String.eqb s "")); [|apply search_executable_spawns].
  destruct (fs_exists env (str_path (Path s))) as [[|]|e]; cbn [fst snd].
  - cbn [record_event trace]. rewrite spawns_snoc. lia.
  - rewrite search_executable_spawns. cbn [record_event trace].
    rewrite spawns_snoc. lia.
  - cbn [record_event trace]. rewrite spawns_snoc. lia.
Qed.

Lemma readiness_loop_spawns settings env iterations m :
  spawns (trace (snd (readiness_loop settings env iterations m))) = spawns (trace m).
Proof.
  revert m. induction iterations as [|i rest IH]; intros m; cbn [readiness_loop];
    [reflexivity|].
  assert (Hs : spawns (trace (sleep 1 m)) = spawns (trace m)).
  { cbn [sleep trace]. rewrite spawns_snoc. lia. }
  destruct (negb (is_running env (sleep 1 m))); [exact Hs|].
  unfold probe.
  assert (Hp : spawns (trace (record_event
                 (EvGet (server_url settings +:+ "/speakers") 2) (sleep 1 m)))
               = spawns (trace m)).
  { cbn [record_event trace]. rewrite spawns_snoc. rewrite Hs. lia. }
  destruct (http_get env _ 2 (clock (sleep 1 m))) as [response|e].
  - destruct (status_code response =? 200); [exact Hp | rewrite IH; exact Hp].
  - rewrite IH. exact Hp.
Qed.

(** The cold path of [start_server], step by step. *)
Lemma start_server_cold settings env m :
  is_running env m = false ->
  _is_starting (svc m) = false ->
  exists r m1,
    _get_executable_path settings env (set_is_starting true m) = (r, m1)
    /\ svc m1 = svc (set_is_starting true m)
    /\ clock m1 = clock m
    /\ spawns (trace m1) = spawns (trace m)
    /\ start_server settings env m =
       match r with
       | Raise _ => (Ok false, set_is_starting false m1)
       | Ok exe =>
           match os_popen env (server_args settings exe) (clock m) with
           | Raise e =>
               (Ok false,
                set_is_starting false
                  (record_event (EvSpawn (server_args settings exe)) m1))
           | Ok p =>
               let m2 := record_event (EvSpawn (server_args settings exe)) m1 in
               let m4 := with_svc {| _process := Some p;
                                     _started_at := Some (utcnow env (clock m));
                                     _is_starting := _is_starting (svc m1) |} m2 in
               (fst (readiness_loop settings env (seq 0 10) m4),
                set_is_starting false (snd (readiness_loop settings env (seq 0 10) m4)))
           end
       end.
Proof.
  intros Hrun Hst. unfold start_server. rewrite Hrun, Hst. cbn [orb].
  unfold start_server_body.
  pose proof (get_executable_path_frame settings env (set_is_starting true m)) as (G1 & G2).
  pose proof (get_executable_path_spawns settings env (set_is_starting true m)) as G3.
  destruct (_get_executable_path settings env (set_is_starting true m)) as [r m1].
  cbn [fst snd] in *. exists r, m1.
  split; [reflexivity|]. split; [exact G1|]. split; [exact G2|]. split; [exact G3|].
  destruct r as [exe|e0]; [|reflexivity].
  cbn [record_event clock]. rewrite G2. cbn [set_is_starting with_svc clock].
  destruct (os_popen env (server_args settings exe) (clock m)) as [p|e].
  - match goal with
    | |- (let '(r, m2) := readiness_loop _ _ _ ?mL in _)
         = (fst (readiness_loop _ _ _ ?mR), _) =>
        assert (HE : mL = mR)
          by (unfold with_svc, record_event;
              cbn [svc clock trace _process _started_at _is_starting];
              rewrite G2; reflexivity);
        rewrite HE;
        pose proof (readiness_loop_frame settings env (seq 0 10) mR) as (_ & _ & [b Hb]);
        destruct (readiness_loop settings env (seq 0 10) mR) as [rl ml]
    end.
    cbn [fst snd] in *. subst rl. reflexivity.
  - reflexivity.
Qed.

(** ** The supervisor: stopping *)

(** X13. [stop_server], branch by branch, from a reachable supervisor. The
    handle and the start time stamp are cleared in every branch, and
    [is_running] is false from then on. The call returns true without a
    handle, after a graceful termination, and after a kill that went through;
    it returns false exactly when [terminate] or [wait] raised something other
    than [TimeoutExpired]; and it raises exactly when the kill after the
    timeout raised. *)
Theorem stop_server_clears_state settings env m :
  reachable settings env m ->
  let r := fst (stop_server env m) in
  let m' := snd (stop_server env m) in
  (_process (svc m') = None /\ _started_at (svc m') = None)
  /\ (forall n, is_running env (elapse n m') = false)
  /\ (_process (svc m) = None -> r = Ok true)
  /\ (forall p, _process (svc m) = Some p ->
        let tw := fst (terminate_and_wait env p m) in
        (tw = Ok tt -> r = Ok true)
        /\ (forall msg, tw = Raise (TimeoutExpired msg) ->
              os_kill env p (clock m) = Ok tt -> r = Ok true)
        /\ (forall msg e, tw = Raise (TimeoutExpired msg) ->
              os_kill env p (clock m) = Raise e -> r = Raise e)
        /\ (forall e, tw = Raise e -> is_TimeoutExpired e = false -> r = Ok false))
  /\ (r = Ok false ->
        exists p e, _process (svc m) = Some p
                    /\ fst (terminate_and_wait env p m) = Raise e
                    /\ is_TimeoutExpired e = false)
  /\ (forall e, r = Raise e ->
        exists p msg, _process (svc m) = Some p
                      /\ fst (terminate_and_wait env p m) = Raise (TimeoutExpired msg)
                      /\ os_kill env p (clock m) = Raise e).
Proof.
  intros Hr r m'.
  assert (Hclear : _process (svc m') = None /\ _started_at (svc m') = None).
  { destruct (_process (svc m)) as [p|] eqn:Hp.
    - apply stop_server_cleared. congruence.
    - pose proof (reachable_consistent settings env m Hr Hp) as Hs.
      subst m'. unfold stop_server. rewrite Hp. simpl. auto. }
  split; [exact Hclear|].
  split.
  { intros n. unfold is_running. simpl. destruct Hclear as [-> _]. reflexivity. }
  subst r m'. unfold stop_server.
  destruct (_process (svc m)) as [p|] eqn:Hp.
  - assert (Hck : clock (snd (terminate_and_wait env p m)) = clock m).
    { unfold terminate_and_wait. destruct (os_terminate env p _); reflexivity. }
    destruct (terminate_and_wait env p m) as [[u|e] m1] eqn:Htw; simpl in Hck.
    + simpl. split; [discriminate|]. split; [|split; discriminate].
      intros q Hq. inversion Hq; subst q. rewrite Htw. simpl.
      repeat split; intros; congruence.
    + split; [discriminate|].
      split; [|split].
      * intros q Hq. inversion Hq; subst q. rewrite Htw. simpl fst.
        split; [discriminate|]. split; [|split].
        -- intros msg He Hk. inversion He; subst e. simpl.
           rewrite Hck, Hk. reflexivity.
        -- intros msg e' He Hk. inversion He; subst e. simpl.
           rewrite Hck, Hk. reflexivity.
        -- intros e' He Hne. inversion He; subst e'.
           destruct e; simpl in Hne; try discriminate; reflexivity.
      * intros Hf. exists p, e. rewrite Htw. simpl fst.
        split; [reflexivity|]. split; [reflexivity|].
        destruct e; try reflexivity. simpl in Hf.
        destruct (os_kill env p _); simpl in Hf; discriminate.
      * intros e' Hf. destruct e; simpl in Hf; try discriminate.
        exists p, msg. rewrite Htw. simpl fst.
        split; [reflexivity|]. split; [reflexivity|].
        rewrite Hck in Hf.
        destruct (os_kill env p (clock m)) as [u|e2]; simpl in Hf;
          [discriminate | congruence].
  - simpl. split; [reflexivity|]. split; [discriminate|]. split; discriminate.
Qed.

(** The supervisor of the sample world, started and then stopped. *)
Lemma stop_server_clears_state_witness :
  let started := snd (start_server Samples.settings Samples.env boot) in
  _process (svc started) = Some {| pid := 4242 |}
  /\ fst (stop_server Samples.env started) = Ok true
  /\ _process (svc (snd (stop_server Samples.env started))) = None
  /\ _started_at (svc (snd (stop_server Samples.env started))) = None.
Proof.
  intros started.
  pose proof (stop_server_clears_state Samples.settings Samples.env started
                (reach_start _ _ _ (reach_boot _ _))) as (Hc & _ & _ & Hb & _).
  destruct (Hb {| pid := 4242 |} eq_refl) as (Hg & _).
  split; [reflexivity|]. split; [apply Hg; reflexivity|]. exact Hc.
Defined.

(** X1. A second [stop_server] right after a first one does nothing: it
    returns true and leaves the machine, trace included, as it is, so no
    process is signalled twice. *)
Theorem stop_server_twice env m :
  stop_server env (snd (stop_server env m))
  = (Ok true, snd (stop_server env m)).
Proof.
  assert (H : _process (svc (snd (stop_server env m))) = None).
  { destruct (_process (svc m)) as [p|] eqn:Hp.
    - apply stop_server_cleared. congruence.
    - unfold stop_server. rewrite Hp. exact Hp. }
  unfold stop_server at 1. rewrite H. reflexivity.
Qed.

(** ** The supervisor: starting *)

(** X2. When [subprocess.Popen] raises, [start_server] returns false, keeps
    the handle and the time stamp it had, resets [_is_starting], sleeps not
    at all and sends no probe. *)
Theorem start_server_spawn_fails settings env m exe e :
  is_running env m = false ->
  _is_starting (svc m) = false ->
  fst (_get_executable_path settings env (set_is_starting true m)) = Ok exe ->
  os_popen env (server_args settings exe) (clock m) = Raise e ->
  fst (start_server settings env m) = Ok false
  /\ svc (snd (start_server settings env m)) = svc m
  /\ clock (snd (start_server settings env m)) = clock m
  /\ trace (snd (start_server settings env m))
     = (trace (snd (_get_executable_path settings env (set_is_starting true m)))
        ++ [EvSpawn (server_args settings exe)])%list.
Proof.
  intros Hrun Hst Hexe Hpopen.
  destruct (start_server_cold settings env m Hrun Hst)
    as (r & m1 & Hg & G1 & G2 & _ & Hs).
  rewrite Hg in Hexe. cbn [fst] in Hexe. subst r.
  rewrite Hs, Hpopen, Hg. cbn [fst snd].
  split; [reflexivity|]. split.
  - cbn [set_is_starting with_svc svc record_event _process _started_at _is_starting].
    rewrite G1. cbn. rewrite <- Hst. destruct (svc m); reflexivity.
  - split; [exact G2 | reflexivity].
Qed.

Lemma start_server_spawn_fails_witness :
  start_server Samples.settings Samples.env_no_exec boot
  = (Ok false,
     {| svc := init; clock := 0;
        trace := [ EvExists "/opt/soco/bin/sonos-http-api-server";
                   EvSpawn [ "/opt/soco/bin/sonos-http-api-server"; "--port"; "8000";
                             "--macros"; "/data/macros.txt";
                             "--use-local-speaker-list" ] ] |}).
Proof.
  destruct (start_server_spawn_fails Samples.settings Samples.env_no_exec boot
              "/opt/soco/bin/sonos-http-api-server"
              (OtherException "PermissionError" "[Errno 13] Permission denied")
              eq_refl eq_refl eq_refl eq_refl) as (H1 & H2 & H3 & H4).
  destruct (start_server Samples.settings Samples.env_no_exec boot) as [r [s c t]].
  cbn [fst snd svc clock trace] in *. subst. reflexivity.
Defined.

(** X14. An exception of the search for the executable does not leave
    [start_server]: the call returns false, spawns nothing, keeps the handle
    and the time stamp it had, resets [_is_starting] and takes no time. *)
Theorem start_server_search_fails settings env m e :
  is_running env m = false ->
  _is_starting (svc m) = false ->
  fst (_get_executable_path settings env (set_is_starting true m)) = Raise e ->
  fst (start_server settings env m) = Ok false
  /\ svc (snd (start_server settings env m)) = svc m
  /\ clock (snd (start_server settings env m)) = clock m
  /\ trace (snd (start_server settings env m))
     = trace (snd (_get_executable_path settings env (set_is_starting true m)))
  /\ spawns (trace (snd (start_server settings env m))) = spawns (trace m).
Proof.
  intros Hrun Hst Hexe.
  destruct (start_server_cold settings env m Hrun Hst)
    as (r & m1 & Hg & G1 & G2 & G3 & Hs).
  rewrite Hg in Hexe. cbn [fst] in Hexe. subst r.
  rewrite Hs, Hg. cbn [fst snd].
  split; [reflexivity|]. split; [|split; [exact G2|split; [reflexivity|exact G3]]].
  cbn [set_is_starting with_svc svc _process _started_at _is_starting].
  rewrite G1. cbn. rewrite <- Hst. destruct (svc m); reflexivity.
Qed.

Lemma start_server_search_fails_witness :
  start_server Samples.settings Samples.env_denied boot
  = (Ok false,
     {| svc := init; clock := 0;
        trace := [ EvExists "/opt/soco/bin/sonos-http-api-server" ] |}).
Proof.
  destruct (start_server_search_fails Samples.settings Samples.env_denied boot
              (OtherException "PermissionError"
                 "[Errno 13] Permission denied: '/opt/soco/bin/sonos-http-api-server'")
              eq_refl eq_refl eq_refl) as (H1 & H2 & H3 & H4 & _).
  destruct (start_server Samples.settings Samples.env_denied boot) as [r [s c t]].
  cbn [fst snd svc clock trace] in *. subst. reflexivity.
Defined.

(** X3. One call of [start_server] calls [subprocess.Popen] at most once, and
    not at all when the server runs or another start is under way. *)
Theorem start_server_spawns_at_most_once settings env m :
  (spawns (trace (snd (start_server settings env m))) <= spawns (trace m) + 1)%nat
  /\ (is_running env m || _is_starting (svc m) = true ->
      spawns (trace (snd (start_server settings env m))) = spawns (trace m)).
Proof.
  destruct (is_running env m) eqn:Hrun.
  { unfold start_server. rewrite Hrun. cbn. split; [lia | reflexivity]. }
  destruct (_is_starting (svc m)) eqn:Hst.
  { unfold start_server. rewrite Hrun, Hst. cbn. split; [lia | reflexivity]. }
  split; [|discriminate].
  destruct (start_server_cold settings env m Hrun Hst)
    as (r & m1 & _ & _ & _ & G3 & Hs).
  rewrite Hs. destruct r as [exe|e0].
  - destruct (os_popen env (server_args settings exe) (clock m)) as [p|e].
    + cbn [snd set_is_starting with_svc trace].
      rewrite readiness_loop_spawns. cbn [with_svc trace record_event].
      rewrite spawns_snoc, G3. lia.
    + cbn [snd set_is_starting with_svc trace record_event].
      rewrite spawns_snoc, G3. lia.
  - cbn [snd set_is_starting with_svc trace]. rewrite G3. lia.
Qed.

Lemma start_server_keeps_flag settings env m :
  _is_starting (svc m) = false ->
  _is_starting (svc (snd (start_server settings env m))) = false.
Proof.
  intros Hst. destruct (is_running env m) eqn:Hrun.
  { unfold start_server. rewrite Hrun. exact Hst. }
  destruct (start_server_cold settings env m Hrun Hst) as (r & m1 & _ & _ & _ & _ & Hs).
  rewrite Hs. destruct r; [destruct (os_popen env _ _)|]; reflexivity.
Qed.

Lemma start_server_stamped settings env m :
  _is_starting (svc m) = false -> stamped m ->
  stamped (snd (start_server settings env m)).
Proof.
  intros Hst Hsm. destruct (is_running env m) eqn:Hrun.
  { unfold start_server. rewrite Hrun. exact Hsm. }
  destruct (start_server_cold settings env m Hrun Hst) as (r & m1 & _ & G1 & _ & _ & Hs).
  rewrite Hs. unfold stamped. destruct r as [exe|e0].
  - destruct (os_popen env _ _) as [p|e]; cbn [snd].
    + cbn [set_is_starting with_svc svc _started_at _process].
      match goal with |- context [readiness_loop settings env ?its ?m4] =>
        pose proof (readiness_loop_frame settings env its m4) as (L1 & _ & _) end.
      rewrite L1. cbn. discriminate.
    + cbn [set_is_starting with_svc svc record_event _started_at _process].
      rewrite G1. exact Hsm.
  - cbn [snd set_is_starting with_svc svc _started_at _process].
    rewrite G1. exact Hsm.
Qed.

Lemma stop_server_keeps_flag env m :
  _is_starting (svc (snd (stop_server env m))) = _is_starting (svc m).
Proof.
  unfold stop_server. destruct (_process (svc m)) as [p|]; [|reflexivity].
  assert (Htw : _is_starting (svc (snd (terminate_and_wait env p m)))
                = _is_starting (svc m)).
  { unfold terminate_and_wait. destruct (os_terminate env p _); reflexivity. }
  destruct (terminate_and_wait env p m) as [[u|e] m1]; cbn [snd] in Htw.
  - exact Htw.
  - destruct e; try exact Htw.
    destruct (os_kill env p _); exact Htw.
Qed.

Lemma reachable_stamped settings env m :
  reachable settings env m -> _is_starting (svc m) = false /\ stamped m.
Proof.
  induction 1 as [|m H [IH1 IH2]|m H [IH1 IH2]|m H [IH1 IH2]|m e H IH|m n H IH].
  - split; [reflexivity | intros _; reflexivity].
  - split; [now apply start_server_keeps_flag | now apply start_server_stamped].
  - split; [now rewrite stop_server_keeps_flag|].
    intros _. destruct (_process (svc m)) as [p|] eqn:Hp.
    + apply stop_server_cleared. congruence.
    + unfold stop_server. rewrite Hp. exact Hp.
  - unfold ensure_server_running. destruct (negb (is_running env m)); [|auto].
    pose proof (start_server_keeps_flag settings env m IH1).
    pose proof (start_server_stamped settings env m IH1 IH2).
    destruct (start_server settings env m) as [[b|e] m']; auto.
  - exact IH.
  - exact IH.
Qed.

(** X4. In every machine a supervisor reaches by calls made one after the
    other, [_is_starting] is false again (no call leaves the flag set, not
    even one that fails), and the handle is present exactly when the start
    time stamp is. *)
Theorem reachable_flag_and_stamp settings env m :
  reachable settings env m ->
  _is_starting (svc m) = false
  /\ (_process (svc m) = None <-> _started_at (svc m) = None).
Proof.
  intros Hr. destruct (reachable_stamped settings env m Hr) as [Hf Hs].
  split; [exact Hf|].
  split; [apply (reachable_consistent settings env m Hr) | exact Hs].
Qed.

(** A start that fails because the child exits, followed by a stop. *)
Lemma reachable_flag_and_stamp_witness :
  let m := snd (stop_server Samples.env_exited
                  (snd (start_server Samples.settings Samples.env_exited boot))) in
  _is_starting (svc m) = false /\ _process (svc m) = None /\ _started_at (svc m) = None.
Proof.
  intros m.
  destruct (reachable_flag_and_stamp Samples.settings Samples.env_exited m
              (reach_stop _ _ _ (reach_start _ _ _ (reach_boot _ _))))
    as (Hf & Hiff).
  split; [exact Hf|]. split; [reflexivity | apply Hiff; reflexivity].
Defined.

Lemma readiness_loop_false settings env iterations : forall m,
  fst (readiness_loop settings env iterations m) = Ok false ->
  is_running env (snd (readiness_loop settings env iterations m)) = false.
Proof.
  induction iterations as [|i rest IH]; intros m; cbn [readiness_loop].
  - discriminate.
  - destruct (negb (is_running env (sleep 1 m))) eqn:Hr.
    + intros _. cbn [snd]. now apply negb_true_iff in Hr.
    + unfold probe. destruct (http_get env _ 2 (clock (sleep 1 m))) as [response|e].
      * destruct (status_code response =? 200); [discriminate | apply IH].
      * apply IH.
Qed.

(** X5. From a reachable supervisor, [start_server] returns true only with a
    process handle and a start time stamp in place, and returns false only
    when the server is not running at the time it returns. *)
Theorem start_server_result_meaning settings env m :
  reachable settings env m ->
  (fst (start_server settings env m) = Ok true ->
   exists p t, _process (svc (snd (start_server settings env m))) = Some p
               /\ _started_at (svc (snd (start_server settings env m))) = Some t)
  /\ (fst (start_server settings env m) = Ok false ->
      is_running env (snd (start_server settings env m)) = false).
Proof.
  intros Hr.
  destruct (reachable_stamped settings env m Hr) as (Hst & Hstamp).
  destruct (is_running env m) eqn:Hrun.
  { unfold start_server. rewrite Hrun. cbn [fst snd]. split; [|discriminate].
    intros _. unfold is_running in Hrun.
    destruct (_process (svc m)) as [p|] eqn:Hp; [|discriminate].
    destruct (_started_at (svc m)) as [t|] eqn:Ht; [eauto|].
    specialize (Hstamp Ht). congruence. }
  destruct (start_server_cold settings env m Hrun Hst)
    as (r & m1 & _ & G1 & G2 & _ & Hs).
  rewrite Hs. destruct r as [exe|e0].
  - destruct (os_popen env (server_args settings exe) (clock m)) as [p|e]; cbn [fst snd].
    + match goal with |- context [readiness_loop settings env ?its ?m4] =>
        pose proof (readiness_loop_frame settings env its m4) as (L1 & _ & _);
        pose proof (readiness_loop_false settings env its m4) as Lf
      end.
      split.
      * intros _. exists p, (utcnow env (clock m)).
        cbn [set_is_starting with_svc svc _process _started_at]. rewrite L1. auto.
      * intros Hf. specialize (Lf Hf). unfold is_running in *.
        cbn [set_is_starting with_svc svc clock _process]. exact Lf.
    + split; [discriminate|]. intros _.
      unfold is_running in *.
      cbn [set_is_starting with_svc svc clock record_event _process].
      rewrite G1, G2. cbn [set_is_starting with_svc svc _process]. exact Hrun.
  - cbn [fst snd]. split; [discriminate|]. intros _.
    unfold is_running in *.
    cbn [set_is_starting with_svc svc clock _process].
    rewrite G1, G2. cbn [set_is_starting with_svc svc _process]. exact Hrun.
Qed.

Lemma start_server_result_meaning_witness :
  fst (start_server Samples.settings Samples.env_exited boot) = Ok false
  /\ is_running Samples.env_exited
       (snd (start_server Samples.settings Samples.env_exited boot)) = false.
Proof.
  split; [reflexivity|].
  apply (start_server_result_meaning Samples.settings Samples.env_exited boot
           (reach_boot _ _)). reflexivity.
Defined.

(** ** The search for the executable *)

(** X6. [first_existing] tests the candidates in order, each one once, and
    stops at the first that exists: it returns that candidate, those before it
    do not exist, and those after it are not tested. When none exists it has
    tested them all and returns nothing. And when a test raises, those before
    it have answered false, the loop raises the same, and the candidates after
    it are not tested. *)
Theorem first_existing_earliest env paths : forall m,
  match first_existing env paths m with
  | (Ok (Some path), m') =>
      exists before after,
        paths = (before ++ path :: after)%list
        /\ none_exists env before
        /\ fs_exists env (str_path (Path path)) = Ok true
        /\ trace m' = (trace m ++ tests_of (before ++ [path]))%list
        /\ svc m' = svc m /\ clock m' = clock m
  | (Ok None, m') =>
      none_exists env paths
      /\ trace m' = (trace m ++ tests_of paths)%list
      /\ svc m' = svc m /\ clock m' = clock m
  | (Raise e, m') =>
      exists before path after,
        paths = (before ++ path :: after)%list
        /\ none_exists env before
        /\ fs_exists env (str_path (Path path)) = Raise e
        /\ trace m' = (trace m ++ tests_of (before ++ [path]))%list
        /\ svc m' = svc m /\ clock m' = clock m
  end.
Proof.
  induction paths as [|path rest IH]; intros m.
  - cbn. repeat split; [constructor | now rewrite List.app_nil_r].
  - rewrite first_existing_cons.
    destruct (fs_exists env (str_path (Path path))) as [[|]|e] eqn:Hex.
    + exists [], rest. repeat split; [constructor | exact Hex].
    + specialize (IH (record_event (EvExists (str_path (Path path))) m)).
      destruct (first_existing env rest _) as [[[found|]|e] m'].
      * destruct IH as (before & after & Hp & Hn & Hf & Ht & Hs & Hc).
        exists (path :: before), after. subst rest.
        repeat split; [constructor; assumption | exact Hf | | exact Hs | exact Hc].
        rewrite Ht. cbn [record_event trace tests_of map List.app].
        now rewrite <- List.app_assoc.
      * destruct IH as (Hn & Ht & Hs & Hc).
        repeat split; [constructor; assumption | | exact Hs | exact Hc].
        rewrite Ht. cbn [record_event trace tests_of map].
        now rewrite <- List.app_assoc.
      * destruct IH as (before & bad & after & Hp & Hn & Hf & Ht & Hs & Hc).
        exists (path :: before), bad, after. subst rest.
        repeat split; [constructor; assumption | exact Hf | | exact Hs | exact Hc].
        rewrite Ht. cbn [record_event trace tests_of map List.app].
        now rewrite <- List.app_assoc.
    + exists [], path, rest. repeat split; [constructor | exact Hex].
Qed.

(** What the loop over the candidates found. *)
Lemma first_existing_found env paths : forall m,
  match fst (first_existing env paths m) with
  | Ok (Some path) =>
      exists before after,
        paths = (before ++ path :: after)%list
        /\ none_exists env before
        /\ fs_exists env (str_path (Path path)) = Ok true
  | Ok None => none_exists env paths
  | Raise _ => True
  end.
Proof.
  induction paths as [|path rest IH]; intros m.
  - cbn. constructor.
  - rewrite first_existing_cons.
    destruct (fs_exists env (str_path (Path path))) as [[|]|e] eqn:Hex; cbn [fst].
    + exists [], rest. repeat split; [constructor | exact Hex].
    + specialize (IH (record_event (EvExists (str_path (Path path))) m)).
      destruct (fst (first_existing env rest _)) as [[found|]|e].
      * destruct IH as (before & after & Hp & Hn & Hf).
        exists (path :: before), after. subst rest.
        repeat split; [constructor; assumption | exact Hf].
      * constructor; assumption.
      * exact I.
    + exact I.
Qed.

Lemma resolve_from_path_found env command m path :
  fst (_resolve_from_path env command m) = Some path ->
  exists out, run_which env command = Ok (0, out)
              /\ path = strip out /\ path <> ""
              /\ fs_exists env (str_path (Path path)) = Ok true.
Proof.
  unfold _resolve_from_path, path_exists.
  destruct (run_which env command) as [[rc out]|e]; [|discriminate].
  destruct (Z.eqb_spec rc 0) as [->|Hne]; [|discriminate].
  destruct (String.eqb_spec (strip out) "") as [He|Hne]; cbn [negb]; [discriminate|].
  destruct (fs_exists env (str_path (Path (strip out)))) as [[|]|e] eqn:Hex;
    try discriminate.
  cbn [fst]. intros H. inversion H. subst path. eauto.
Qed.

(** What the search returns once the configured path has not settled it. *)
Lemma search_executable_order env m r :
  fst (search_executable env m) = Ok r ->
  exists home,
    fs_home env = Ok home
    /\ ((exists before after,
           possible_paths (Path home) = (before ++ r :: after)%list
           /\ none_exists env before
           /\ fs_exists env (str_path (Path r)) = Ok true)
        \/ (none_exists env (possible_paths (Path home))
            /\ exists out, run_which env "sonos-http-api-server" = Ok (0, out)
                           /\ r = strip out /\ r <> ""
                           /\ fs_exists env (str_path (Path r)) = Ok true)
        \/ (none_exists env (possible_paths (Path home))
            /\ r = "sonos-http-api-server")).
Proof.
  unfold search_executable, path_home.
  destruct (fs_home env) as [home|e]; [|discriminate].
  intros H. exists home. split; [reflexivity|].
  pose proof (first_existing_found env (possible_paths (Path home))
                (record_event EvHome m)) as F.
  destruct (first_existing env (possible_paths (Path home)) (record_event EvHome m))
    as [[[path|]|e] m3]; cbn [fst] in H, F.
  - inversion H; subst path.
    destruct F as (before & after & Hp & Hn & Hf). left. eauto.
  - rename F into Hn.
    pose proof (resolve_from_path_found env "sonos-http-api-server" m3) as R.
    destruct (_resolve_from_path env "sonos-http-api-server" m3) as [[res|] m4];
      cbn [fst] in *; inversion H; subst.
    + right. left. split; [exact Hn|]. now apply R.
    + right. right. auto.
  - discriminate.
Qed.



(** ** The URL of a command *)

Lemma string_app_cons (x : ascii) (a b : string) :
  String x a +:+ b = String x (a +:+ b).
Proof. reflexivity. Qed.

Lemma string_app_nil (b : string) : "" +:+ b = b.
Proof. reflexivity. Qed.

Lemma all_chars_app P (a b : string) :
  all_chars P (a +:+ b) = all_chars P a && all_chars P b.
Proof.
  induction a as [|c a IH].
  - now rewrite string_app_nil.
  - rewrite string_app_cons. cbn [all_chars]. rewrite IH. apply andb_assoc.
Qed.

Lemma string_app_assoc (a b c : string) : (a +:+ b) +:+ c = a +:+ (b +:+ c).
Proof.
  induction a as [|x a IH].
  - now rewrite !string_app_nil.
  - rewrite !string_app_cons. now rewrite IH.
Qed.

Lemma percent_encode_safe (c : ascii) : all_chars url_safe (percent_encode c) = true.
Proof. destruct c as [[] [] [] [] [] [] [] []]; vm_compute; reflexivity. Qed.

Lemma quote_safe (s : string) : all_chars url_safe (quote s) = true.
Proof.
  induction s as [|c s IH]; cbn [quote]; [reflexivity|].
  rewrite all_chars_app, IH, andb_true_r.
  destruct (is_unreserved c) eqn:Hc; [|apply percent_encode_safe].
  cbn. unfold url_safe. now rewrite Hc.
Qed.

Lemma quote_unreserved (s : string) :
  all_chars is_unreserved s = true -> quote s = s.
Proof.
  induction s as [|c s IH]; cbn [quote all_chars]; [reflexivity|].
  intros H. apply andb_true_iff in H as [Hc Hs]. rewrite Hc, (IH Hs). reflexivity.
Qed.

Lemma join_quote_safe (l : list string) :
  all_chars url_safe (join "/" (map quote l)) = true.
Proof.
  unfold join. induction l as [|x l IH]; [reflexivity|].
  cbn [map String.concat]. destruct (map quote l) as [|y l'] eqn:Hl.
  - apply quote_safe.
  - rewrite !all_chars_app, quote_safe, IH. reflexivity.
Qed.



(** ** The request lock: queueing, progress and termination *)

Lemma wake_up_first_length waiters ps :
  length (_wake_up_first waiters ps) = length ps.
Proof.
  unfold _wake_up_first. destruct waiters as [|k rest]; [reflexivity|].
  destruct (ps !! k) as [[| |[|]| | |r]|]; try reflexivity.
  apply length_insert.
Qed.

Lemma wake_up_first_waiting waiters ps j :
  (exists b, _wake_up_first waiters ps !! j = Some (Waiting b))
  <-> (exists b, ps !! j = Some (Waiting b)).
Proof.
  unfold _wake_up_first. destruct waiters as [|k rest]; [tauto|].
  destruct (ps !! k) as [[| |[|]| | |r]|] eqn:Hk; try tauto.
  rewrite (lookup_set ps k j (Waiting true) (Waiting false) Hk).
  destruct (Nat.eqb_spec j k) as [->|Hne]; [|tauto].
  split; intros _; eauto.
Qed.

Lemma wake_up_first_head waiters ps j b :
  head waiters = Some j -> ps !! j = Some (Waiting b) ->
  _wake_up_first waiters ps !! j = Some (Waiting true).
Proof.
  intros Hh Hj. unfold _wake_up_first.
  destruct waiters as [|k rest]; [discriminate|].
  cbn in Hh. inversion Hh; subst k. rewrite Hj.
  destruct b; [exact Hj|].
  rewrite (lookup_set ps j j (Waiting true) (Waiting false) Hj).
  now rewrite Nat.eqb_refl.
Qed.

Lemma head_snoc {A} (l : list A) (x y : A) :
  l <> [] -> head (l ++ [x]) = Some y -> head l = Some y.
Proof. destruct l; [congruence | cbn; auto]. Qed.

Ltac queue_split :=
  split; [|split; [|split]];
  [ unfold locked_has_holder | unfold waiters_are_waiting
  | unfold free_lock_wakes | unfold calls_match ];
  cbn [at_ _request_lock history _locked _waiters calls].

(** Changing a caller that neither waits nor holds, into one that neither
    waits nor holds, keeps the queue as it is. *)
Lemma lookup_set_other {A} (l : list A) (i j : nat) (x old y : A) :
  l !! i = Some old -> j <> i -> (<[i := x]> l !! j = Some y <-> l !! j = Some y).
Proof.
  intros Hi Hne. rewrite (lookup_set l i j x old Hi).
  destruct (Nat.eqb_spec j i); [contradiction | tauto].
Qed.

Lemma lookup_set_same {A} (l : list A) (i : nat) (x old : A) :
  l !! i = Some old -> <[i := x]> l !! i = Some x.
Proof.
  intros Hi. rewrite (lookup_set l i i x old Hi). now rewrite Nat.eqb_refl.
Qed.

Lemma waiting_after_set (ps : list pc) (i : nat) (x old : pc) (j : nat) :
  ps !! i = Some old ->
  (forall b, old <> Waiting b) -> (forall b, x <> Waiting b) ->
  ((exists b, <[i := x]> ps !! j = Some (Waiting b))
   <-> (exists b, ps !! j = Some (Waiting b))).
Proof.
  intros Hi Ho Hx. rewrite (lookup_set ps i j x old Hi).
  destruct (Nat.eqb_spec j i) as [->|Hne]; [|tauto].
  rewrite Hi. split; intros [b Hb]; inversion Hb; subst; exfalso.
  - now apply (Hx b).
  - now apply (Ho b).
Qed.

Lemma step_preserves_queue settings l s s' :
  lock_invariant s -> queue_invariant s ->
  step settings l s = Some s' -> queue_invariant s'.
Proof.
  intros (I1 & I2 & I3 & I4) (K & M & L & N) Hstep.
  destruct l as [i|i|i|i|i r]; unfold step in Hstep.
  - (* Ensured *)
    destruct (at_ s !! i) as [[| | | | |]|] eqn:Hi; try discriminate.
    inversion Hstep; subst s'; clear Hstep. queue_split.
    + intros Hl. destruct (K Hl) as (j & p & Hj & Hp). exists j, p.
      split; [|exact Hp]. apply (lookup_set_other _ i j _ _ _ Hi); [|exact Hj].
      intros ->. rewrite Hi in Hj. inversion Hj; subst p. discriminate.
    + intros j. rewrite (waiting_after_set _ i _ _ j Hi); [apply M | |]; discriminate.
    + intros Hl j Hj. specialize (L Hl j Hj).
      apply (lookup_set_other _ i j _ _ _ Hi); [|exact L].
      intros ->. congruence.
    + rewrite length_insert. exact N.
  - (* Acquire *)
    destruct (at_ s !! i) as [[| | | | |]|] eqn:Hi; try discriminate.
    destruct (negb (_locked (_request_lock s))
              && match _waiters (_request_lock s) with [] => true | _ => false end)
      eqn:Hfree; inversion Hstep; subst s'; clear Hstep; queue_split.
    + intros _. exists i, InLock. split; [|reflexivity].
      eapply lookup_set_same; eassumption.
    + apply andb_true_iff in Hfree as [_ Hw].
      destruct (_waiters (_request_lock s)) as [|w ws] eqn:Hws; [|discriminate].
      intros j. rewrite (waiting_after_set _ i _ _ j Hi); [|discriminate|discriminate].
      rewrite <- Hws. apply M.
    + discriminate.
    + rewrite length_insert. exact N.
    + intros Hl. destruct (K Hl) as (j & p & Hj & Hp). exists j, p.
      split; [|exact Hp]. apply (lookup_set_other _ i j _ _ _ Hi); [|exact Hj].
      intros ->. rewrite Hi in Hj. inversion Hj; subst p. discriminate.
    + intros j. rewrite List.in_app_iff. cbn [In].
      rewrite (lookup_set _ i j _ _ Hi).
      destruct (Nat.eqb_spec j i) as [->|Hne].
      * split; [eauto | auto].
      * specialize (M j). split; [intros [H|[H|[]]]; [tauto | congruence] | tauto].
    + intros Hl j Hj.
      destruct (_waiters (_request_lock s)) as [|w ws] eqn:Hws.
      * rewrite Hl in Hfree. discriminate.
      * cbn in Hj. assert (Hh : head (_waiters (_request_lock s)) = Some j)
          by (rewrite Hws; exact Hj).
        specialize (L Hl j Hh).
        apply (lookup_set_other _ i j _ _ _ Hi); [|exact L].
        intros ->. congruence.
    + rewrite length_insert. exact N.
  - (* Resume *)
    destruct (at_ s !! i) as [[| |[|]| | |]|] eqn:Hi; try discriminate.
    inversion Hstep; subst s'; clear Hstep. queue_split.
    + intros _. exists i, InLock. split; [|reflexivity].
      eapply lookup_set_same; eassumption.
    + intros j. rewrite List.filter_In. specialize (M j).
      rewrite (lookup_set _ i j _ _ Hi).
      destruct (Nat.eqb_spec j i) as [->|Hne]; cbn [negb].
      * split; [intros [_ H]; discriminate | intros [b Hb]; discriminate].
      * intuition.
    + discriminate.
    + rewrite length_insert. exact N.
  - (* Send *)
    destruct (at_ s !! i) as [[| | | | |]|] eqn:Hi; try discriminate.
    destruct (calls s !! i) as [c|] eqn:Hc; try discriminate.
    inversion Hstep; subst s'; clear Hstep. queue_split.
    + intros _. exists i, InFlight. split; [|reflexivity].
      eapply lookup_set_same; eassumption.
    + intros j. rewrite (waiting_after_set _ i _ _ j Hi); [apply M | |]; discriminate.
    + intros Hl j Hj. specialize (L Hl j Hj).
      apply (lookup_set_other _ i j _ _ _ Hi); [|exact L].
      intros ->. congruence.
    + rewrite length_insert. exact N.
  - (* Receive *)
    destruct (at_ s !! i) as [[| | | | |]|] eqn:Hi; try discriminate.
    destruct (calls s !! i) as [c|] eqn:Hc; try discriminate.
    inversion Hstep; subst s'; clear Hstep. queue_split.
    + discriminate.
    + intros j. rewrite wake_up_first_waiting.
      rewrite (waiting_after_set _ i _ _ j Hi); [apply M | |]; discriminate.
    + intros _ j Hj.
      assert (Hin : In j (_waiters (_request_lock s))).
      { destruct (_waiters (_request_lock s)); [discriminate|].
        cbn in Hj. inversion Hj. now left. }
      apply M in Hin as [b Hb].
      apply (wake_up_first_head _ _ j b Hj).
      apply (lookup_set_other _ i j _ _ _ Hi); [|exact Hb].
      intros ->. congruence.
    + rewrite wake_up_first_length, length_insert. exact N.
Qed.

Lemma start_length cs : length (at_ (start cs)) = length cs.
Proof. unfold start. cbn [at_]. apply length_map. Qed.

Lemma start_queue_invariant cs : queue_invariant (start cs).
Proof.
  split; [|split; [|split]].
  - intros H. discriminate H.
  - intros j. cbn. split; [tauto|].
    intros [b Hb]. apply start_lookup in Hb. discriminate.
  - intros _ j Hj. discriminate Hj.
  - unfold calls_match. now rewrite start_length.
Qed.

Lemma run_preserves_both settings schedule : forall s s',
  lock_invariant s -> queue_invariant s ->
  run settings schedule s = Some s' ->
  lock_invariant s' /\ queue_invariant s'.
Proof.
  induction schedule as [|l rest IH]; intros s s' Hl Hq Hrun; cbn in Hrun.
  - inversion Hrun; subst. auto.
  - destruct (step settings l s) as [s1|] eqn:Hstep; [|discriminate].
    eapply IH; [| |exact Hrun].
    + eapply step_preserves; eassumption.
    + eapply step_preserves_queue; eassumption.
Qed.

Lemma reached_invariants settings cs schedule s :
  run settings schedule (start cs) = Some s ->
  lock_invariant s /\ queue_invariant s.
Proof.
  apply run_preserves_both; [apply start_invariant | apply start_queue_invariant].
Qed.

(** X9. Nobody overtakes the queue: in a reachable state, a caller that takes
    the request lock in a step either found the queue of waiters empty or
    was the first in it. *)
Theorem lock_taken_in_queue_order settings cs schedule s l s' i :
  run settings schedule (start cs) = Some s ->
  step settings l s = Some s' ->
  at_ s !! i <> Some InLock ->
  at_ s' !! i = Some InLock ->
  _waiters (_request_lock s) = []
  \/ head (_waiters (_request_lock s)) = Some i.
Proof.
  intros Hrun Hstep Hbefore Hafter.
  destruct (reached_invariants settings cs schedule s Hrun)
    as ((I1 & I2 & I3 & I4) & _).
  destruct l as [k|k|k|k|k r]; unfold step in Hstep.
  - destruct (at_ s !! k) as [[| | | | |]|] eqn:Hk; try discriminate.
    inversion Hstep; subst s'; clear Hstep. cbn [at_] in Hafter.
    rewrite (lookup_set _ k i _ _ Hk) in Hafter.
    destruct (Nat.eqb_spec i k); [discriminate | contradiction].
  - destruct (at_ s !! k) as [[| | | | |]|] eqn:Hk; try discriminate.
    destruct (negb (_locked (_request_lock s))
              && match _waiters (_request_lock s) with [] => true | _ => false end)
      eqn:Hfree; inversion Hstep; subst s'; clear Hstep; cbn [at_] in Hafter.
    + apply andb_true_iff in Hfree as [_ Hw].
      destruct (_waiters (_request_lock s)); [now left | discriminate].
    + rewrite (lookup_set _ k i _ _ Hk) in Hafter.
      destruct (Nat.eqb_spec i k); [discriminate | contradiction].
  - destruct (at_ s !! k) as [[| |[|]| | |]|] eqn:Hk; try discriminate.
    inversion Hstep; subst s'; clear Hstep. cbn [at_] in Hafter.
    rewrite (lookup_set _ k i _ _ Hk) in Hafter.
    destruct (Nat.eqb_spec i k) as [->|]; [|contradiction].
    right. apply (I3 k Hk).
  - destruct (at_ s !! k) as [[| | | | |]|] eqn:Hk; try discriminate.
    destruct (calls s !! k) as [c|]; try discriminate.
    inversion Hstep; subst s'; clear Hstep. cbn [at_] in Hafter.
    rewrite (lookup_set _ k i _ _ Hk) in Hafter.
    destruct (Nat.eqb_spec i k); [discriminate | contradiction].
  - destruct (at_ s !! k) as [[| | | | |]|] eqn:Hk; try discriminate.
    destruct (calls s !! k) as [c|]; try discriminate.
    inversion Hstep; subst s'; clear Hstep. cbn [at_] in Hafter.
    apply wake_up_first_lookup in Hafter as [Hafter|(Hy & _)]; [|discriminate].
    rewrite (lookup_set _ k i _ _ Hk) in Hafter.
    destruct (Nat.eqb_spec i k); [discriminate | contradiction].
Qed.

(** On the contended schedule the second caller takes the lock as the first
    of the queue. *)
Lemma lock_taken_in_queue_order_witness :
  exists s s',
    run Samples.settings (firstn 6 Samples.contended) (start Samples.two_calls) = Some s
    /\ step Samples.settings (Resume 1) s = Some s'
    /\ head (_waiters (_request_lock s)) = Some 1%nat.
Proof.
  destruct (run Samples.settings (firstn 6 Samples.contended) (start Samples.two_calls))
    as [s|] eqn:Hrun; [|vm_compute in Hrun; discriminate Hrun].
  destruct (step Samples.settings (Resume 1) s) as [s'|] eqn:Hstep.
  2:{ vm_compute in Hrun. inversion Hrun; subst s. vm_compute in Hstep.
      discriminate Hstep. }
  exists s, s'. split; [reflexivity|]. split; [exact Hstep|].
  destruct (lock_taken_in_queue_order Samples.settings Samples.two_calls
              (firstn 6 Samples.contended) s (Resume 1) s' 1%nat Hrun Hstep)
    as [He|Hh].
  - vm_compute in Hrun. inversion Hrun; subst s. discriminate.
  - vm_compute in Hrun. inversion Hrun; subst s.
    vm_compute in Hstep. inversion Hstep; subst s'. reflexivity.
  - vm_compute in Hrun. inversion Hrun; subst s. discriminate He.
  - exact Hh.
Defined.

Lemma some_not_returned (ps : list pc) :
  (forall i p, ps !! i = Some p -> exists r, p = Returned r)
  \/ (exists i p, ps !! i = Some p /\ forall r, p <> Returned r).
Proof.
  induction ps as [|x ps IH].
  - left. intros i p H. destruct i; discriminate H.
  - destruct x as [| |b| | |r0];
      try (right; exists 0%nat; eexists; split; [reflexivity | discriminate]).
    destruct IH as [IH|(i & p & Hi & Hp)].
    + left. intros [|i] p H.
      * inversion H. eauto.
      * apply (IH i p H).
    + right. exists (S i), p. split; [exact Hi | exact Hp].
Qed.

(** X10. The callers never deadlock: in every state they reach, either all
    of them have returned or some step is possible. *)
Theorem callers_never_deadlock settings cs schedule s :
  run settings schedule (start cs) = Some s ->
  all_returned s \/ exists l s', step settings l s = Some s'.
Proof.
  intros Hrun.
  destruct (reached_invariants settings cs schedule s Hrun)
    as ((I1 & I2 & I3 & I4) & (K & M & L & N)).
  destruct (some_not_returned (at_ s)) as [Hall|(i & p & Hi & Hp)]; [left; exact Hall|].
  right.
  assert (Hcall : forall h q, at_ s !! h = Some q -> exists c, calls s !! h = Some c).
  { intros h q Hh. apply lookup_lt_Some in Hh. unfold calls_match in N.
    rewrite <- N in Hh. apply lookup_lt_is_Some_2 in Hh. destruct Hh as [c Hc]. eauto. }
  assert (Hholder : forall h q, at_ s !! h = Some q -> holds_lock q = true ->
                                exists l s', step settings l s = Some s').
  { intros h q Hh Hq. destruct (Hcall h q Hh) as [c Hc].
    destruct q; try discriminate.
    - exists (Send h). unfold step. rewrite Hh, Hc. eauto.
    - exists (Receive h (Raise (OtherException "ReadTimeout" "timed out"))).
      unfold step. rewrite Hh, Hc. eauto. }
  destruct p as [| |[|]| | |r].
  - exists (Ensured i). unfold step. rewrite Hi. eauto.
  - exists (Acquire i). unfold step. rewrite Hi.
    destruct (negb (_locked (_request_lock s)) && _); eauto.
  - exists (Resume i). unfold step. rewrite Hi. eauto.
  - assert (Hin : In i (_waiters (_request_lock s))) by (apply M; eauto).
    destruct (_locked (_request_lock s)) eqn:Hl.
    + destruct (K Hl) as (h & q & Hh & Hq). eapply Hholder; eassumption.
    + destruct (_waiters (_request_lock s)) as [|j ws] eqn:Hw; [contradiction|].
      assert (Hj : at_ s !! j = Some (Waiting true)).
      { apply (L Hl). rewrite Hw. reflexivity. }
      exists (Resume j). unfold step. rewrite Hj. eauto.
  - eapply (Hholder i InLock); [exact Hi | reflexivity].
  - eapply (Hholder i InFlight); [exact Hi | reflexivity].
  - exfalso. eapply Hp. reflexivity.
Qed.

Lemma callers_never_deadlock_witness :
  exists s,
    run Samples.settings (firstn 5 Samples.contended) (start Samples.two_calls) = Some s
    /\ ~ all_returned s
    /\ exists l s', step Samples.settings l s = Some s'.
Proof.
  destruct (run Samples.settings (firstn 5 Samples.contended) (start Samples.two_calls))
    as [s|] eqn:Hrun; [|vm_compute in Hrun; discriminate Hrun].
  exists s. split; [reflexivity|].
  assert (Hnot : ~ all_returned s).
  { intros Hall. vm_compute in Hrun. inversion Hrun; subst s.
    destruct (Hall 0%nat InFlight eq_refl) as [r Hr]. discriminate Hr. }
  split; [exact Hnot|].
  destruct (callers_never_deadlock Samples.settings Samples.two_calls
              (firstn 5 Samples.contended) s Hrun) as [Hall|H];
    [contradiction | exact H].
Defined.

Lemma total_steps_set (ps : list pc) : forall (i : nat) (x old : pc),
  ps !! i = Some old ->
  (total_steps_left (<[i := x]> ps) + steps_left old
   = total_steps_left ps + steps_left x)%nat.
Proof.
  induction ps as [|p ps IH]; intros i x old Hi; [destruct i; discriminate|].
  destruct i as [|i].
  - inversion Hi; subst p. cbn. lia.
  - specialize (IH i x old Hi).
    change (total_steps_left (<[S i := x]> (p :: ps)))
      with (steps_left p + total_steps_left (<[i := x]> ps))%nat.
    change (total_steps_left (p :: ps))
      with (steps_left p + total_steps_left ps)%nat.
    lia.
Qed.

Lemma wake_up_first_total waiters ps :
  total_steps_left (_wake_up_first waiters ps) = total_steps_left ps.
Proof.
  unfold _wake_up_first. destruct waiters as [|k rest]; [reflexivity|].
  destruct (ps !! k) as [[| |[|]| | |r]|] eqn:Hk; try reflexivity.
  pose proof (total_steps_set ps k (Waiting true) (Waiting false) Hk) as H.
  cbn [steps_left] in H. lia.
Qed.

Lemma step_decreases settings l s s' :
  step settings l s = Some s' ->
  (total_steps_left (at_ s') < total_steps_left (at_ s))%nat.
Proof.
  intros Hstep. destruct l as [i|i|i|i|i r]; unfold step in Hstep.
  - destruct (at_ s !! i) as [[| | | | |]|] eqn:Hi; try discriminate.
    inversion Hstep; subst s'; cbn [at_].
    pose proof (total_steps_set _ i AtAcquire _ Hi) as H. cbn [steps_left] in H. lia.
  - destruct (at_ s !! i) as [[| | | | |]|] eqn:Hi; try discriminate.
    destruct (negb (_locked (_request_lock s)) && _);
      inversion Hstep; subst s'; cbn [at_].
    + pose proof (total_steps_set _ i InLock _ Hi) as H. cbn [steps_left] in H. lia.
    + pose proof (total_steps_set _ i (Waiting false) _ Hi) as H.
      cbn [steps_left] in H. lia.
  - destruct (at_ s !! i) as [[| |[|]| | |]|] eqn:Hi; try discriminate.
    inversion Hstep; subst s'; cbn [at_].
    pose proof (total_steps_set _ i InLock _ Hi) as H. cbn [steps_left] in H. lia.
  - destruct (at_ s !! i) as [[| | | | |]|] eqn:Hi; try discriminate.
    destruct (calls s !! i) as [c|]; try discriminate.
    inversion Hstep; subst s'; cbn [at_].
    pose proof (total_steps_set _ i InFlight _ Hi) as H. cbn [steps_left] in H. lia.
  - destruct (at_ s !! i) as [[| | | | |]|] eqn:Hi; try discriminate.
    destruct (calls s !! i) as [c|]; try discriminate.
    inversion Hstep; subst s'; cbn [at_]. rewrite wake_up_first_total.
    pose proof (total_steps_set _ i (Returned (result_of c r)) _ Hi) as H.
    cbn [steps_left] in H. lia.
Qed.

Lemma run_decreases settings schedule : forall s s',
  run settings schedule s = Some s' ->
  (total_steps_left (at_ s') + length schedule <= total_steps_left (at_ s))%nat.
Proof.
  induction schedule as [|l rest IH]; intros s s' Hrun; cbn in Hrun.
  - inversion Hrun; subst. cbn. lia.
  - destruct (step settings l s) as [s1|] eqn:Hstep; [|discriminate].
    specialize (IH s1 s' Hrun). apply step_decreases in Hstep. cbn [length]. lia.
Qed.

Lemma total_steps_start cs :
  total_steps_left (at_ (start cs)) = (5 * length cs)%nat.
Proof.
  unfold start. cbn [at_]. induction cs as [|c cs IH]; [reflexivity|].
  cbn [map total_steps_left fold_right steps_left length].
  unfold total_steps_left in IH. rewrite IH. lia.
Qed.

Lemma total_steps_zero (ps : list pc) :
  total_steps_left ps = 0%nat ->
  forall i p, ps !! i = Some p -> exists r, p = Returned r.
Proof.
  induction ps as [|x ps IH]; intros H i p Hi; [destruct i; discriminate|].
  cbn in H. destruct i as [|i].
  - inversion Hi; subst x. destruct p; cbn in H; try lia. eauto.
  - apply (IH ltac:(unfold total_steps_left; lia) i p Hi).
Qed.



Lemma issued_snoc i h e :
  issued i (h ++ [e])
  = (issued i h + match e with
                  | Issue j _ => if (j =? i)%nat then 1 else 0
                  | Complete _ => 0
                  end)%nat.
Proof.
  unfold issued. rewrite List.filter_app, length_app.
  destruct e as [j u|j]; cbn; [destruct (j =? i)%nat|]; reflexivity.
Qed.

Lemma completed_snoc i h e :
  completed i (h ++ [e])
  = (completed i h + match e with
                     | Issue _ _ => 0
                     | Complete j => if (j =? i)%nat then 1 else 0
                     end)%nat.
Proof.
  unfold completed. rewrite List.filter_app, length_app.
  destruct e as [j u|j]; cbn; [|destruct (j =? i)%nat]; reflexivity.
Qed.

Lemma wake_up_first_sent waiters ps i :
  sent_at (_wake_up_first waiters ps) i = sent_at ps i
  /\ returned_at (_wake_up_first waiters ps) i = returned_at ps i.
Proof.
  unfold _wake_up_first. destruct waiters as [|k rest]; [auto|].
  destruct (ps !! k) as [[| |[|]| | |r]|] eqn:Hk; auto.
  unfold sent_at, returned_at.
  rewrite (lookup_set ps k i (Waiting true) (Waiting false) Hk).
  destruct (Nat.eqb_spec i k) as [->|Hne]; [rewrite Hk|]; auto.
Qed.

Lemma start_counts cs : history_counts (start cs).
Proof.
  intros i. unfold sent_at, returned_at.
  destruct (at_ (start cs) !! i) as [p|] eqn:Hi; [|auto].
  apply start_lookup in Hi. subst p. auto.
Qed.

Lemma step_preserves_counts settings l s s' :
  history_counts s -> step settings l s = Some s' -> history_counts s'.
Proof.
  intros H Hstep j. specialize (H j). destruct H as [Hs Hr].
  unfold sent_at, returned_at in Hs, Hr.
  destruct l as [i|i|i|i|i r]; unfold step in Hstep.
  - destruct (at_ s !! i) as [[| | | | |]|] eqn:Hi; try discriminate.
    inversion Hstep; subst s'; cbn [at_ history].
    unfold sent_at, returned_at. rewrite (lookup_set _ i j _ _ Hi).
    destruct (Nat.eqb_spec j i) as [->|Hne]; [rewrite Hi in Hs, Hr|]; auto.
  - destruct (at_ s !! i) as [[| | | | |]|] eqn:Hi; try discriminate.
    destruct (negb (_locked (_request_lock s)) && _);
      inversion Hstep; subst s'; cbn [at_ history];
      unfold sent_at, returned_at; rewrite (lookup_set _ i j _ _ Hi);
      (destruct (Nat.eqb_spec j i) as [->|Hne]; [rewrite Hi in Hs, Hr|]; auto).
  - destruct (at_ s !! i) as [[| |[|]| | |]|] eqn:Hi; try discriminate.
    inversion Hstep; subst s'; cbn [at_ history].
    unfold sent_at, returned_at. rewrite (lookup_set _ i j _ _ Hi).
    destruct (Nat.eqb_spec j i) as [->|Hne]; [rewrite Hi in Hs, Hr|]; auto.
  - destruct (at_ s !! i) as [[| | | | |]|] eqn:Hi; try discriminate.
    destruct (calls s !! i) as [c|]; try discriminate.
    inversion Hstep; subst s'; cbn [at_ history].
    rewrite issued_snoc, completed_snoc.
    unfold sent_at, returned_at. rewrite (lookup_set _ i j _ _ Hi).
    destruct (Nat.eqb_spec j i) as [->|Hne].
    + rewrite Hi in Hs, Hr. rewrite Nat.eqb_refl, Hs, Hr. auto.
    + assert (Hn : (i =? j)%nat = false) by (apply Nat.eqb_neq; congruence).
      rewrite Hn, Hs, Hr. split; lia.
  - destruct (at_ s !! i) as [[| | | | |]|] eqn:Hi; try discriminate.
    destruct (calls s !! i) as [c|]; try discriminate.
    inversion Hstep; subst s'; cbn [at_ history].
    rewrite issued_snoc, completed_snoc.
    destruct (wake_up_first_sent (_waiters (_request_lock s))
                (<[i := Returned (result_of c r)]> (at_ s)) j) as [-> ->].
    unfold sent_at, returned_at. rewrite (lookup_set _ i j _ _ Hi).
    destruct (Nat.eqb_spec j i) as [->|Hne].
    + rewrite Hi in Hs, Hr. rewrite Nat.eqb_refl, Hs, Hr. auto.
    + assert (Hn : (i =? j)%nat = false) by (apply Nat.eqb_neq; congruence).
      rewrite Hn, Hs, Hr. split; lia.
Qed.

Lemma run_preserves_counts settings schedule : forall s s',
  history_counts s -> run settings schedule s = Some s' -> history_counts s'.
Proof.
  induction schedule as [|l rest IH]; intros s s' Hc Hrun; cbn in Hrun.
  - inversion Hrun; subst. exact Hc.
  - destruct (step settings l s) as [s1|] eqn:Hstep; [|discriminate].
    eapply IH; [|exact Hrun]. eapply step_preserves_counts; eassumption.
Qed.



(** ** [get_speaker_info] *)

Lemma get_client_own d :
  own_client d ->
  client_timeout (fst (_get_client d)) = 30
  /\ own_client (snd (_get_client d))
  /\ _soco_cli_service (snd (_get_client d)) = _soco_cli_service d.
Proof.
  intros Hown. unfold _get_client.
  destruct (_client d) as [c|] eqn:Hc.
  - destruct (is_closed c) eqn:Hcl; cbn.
    + repeat split; try reflexivity. intros c' H; inversion H; reflexivity.
    + split; [apply Hown; exact Hc|]. split; [exact Hown | reflexivity].
  - cbn. repeat split; try reflexivity. intros c' H; inversion H; reflexivity.
Qed.

Lemma after_get_own url d : own_client d -> own_client (after_get url d).
Proof.
  intros Hown c H. unfold after_get in H. cbn [_client] in H.
  destruct (get_client_own d Hown) as (_ & Hown' & _). exact (Hown' c H).
Qed.

(** With the server running, a command is one GET through the service's
    client: nothing is started, the clock stands still. *)
Lemma execute_command_running settings env speaker action args d :
  is_running env (_soco_cli_service d) = true ->
  own_client d ->
  execute_command settings env speaker action args d
  = (Ok (result_of {| call_speaker := speaker; call_action := action;
                      call_args := args |}
           (http_get env (command_url settings speaker action args) 30
              (clock (_soco_cli_service d)))),
     after_get (command_url settings speaker action args) d).
Proof.
  intros Hrun Hown.
  destruct (get_client_own d Hown) as (Ht & _ & Hs).
  unfold execute_command, ensure_server_running. rewrite Hrun. cbn [negb].
  replace (with_supervisor (_soco_cli_service d) d) with d by (destruct d; reflexivity).
  unfold client_get, after_get, result_of.
  cbn [call_speaker call_action call_args].
  destruct (_get_client d) as [c d1] eqn:Hg. cbn [fst snd] in *.
  rewrite Hs, Ht. unfold with_supervisor, try_except.
  destruct (response_of_get speaker action args _); reflexivity.
Qed.

Lemma command_answer settings env speaker_name action d :
  is_running env (_soco_cli_service d) = true ->
  own_client d ->
  execute_command settings env speaker_name action [] d
  = (Ok (answer settings env speaker_name (clock (_soco_cli_service d)) action),
     after_get (command_url settings speaker_name action []) d).
Proof. apply execute_command_running. Qed.

(** [execute_command] returns, whatever the world does. *)
Lemma execute_command_returns settings env speaker action args d :
  returns (fst (execute_command settings env speaker action args d)).
Proof.
  rewrite execute_command_unfold. unfold try_except, returns.
  destruct (response_of_get speaker action args _); eauto.
Qed.

Lemma same_marks_refl sp : same_marks sp sp.
Proof. repeat split. Qed.

Lemma assign_int_marks py_int text set sp blank :
  (forall v x, same_marks (set v x) x) ->
  same_marks sp blank -> same_marks (assign_int py_int text set sp) blank.
Proof.
  intros Hset (H1 & H2 & H3). unfold assign_int.
  destruct (py_int text) as [n|]; [|repeat split; assumption].
  destruct (Hset (JInt n) sp) as (S1 & S2 & S3).
  repeat split; congruence.
Qed.

Lemma same_marks_if (c : bool) (a b blank : Speaker.t) :
  same_marks a blank -> same_marks b blank -> same_marks (if c then a else b) blank.
Proof. destruct c; auto. Qed.

Lemma set_marks (f : json -> Speaker.t -> Speaker.t) v sp blank :
  (forall v x, same_marks (f v x) x) ->
  same_marks sp blank -> same_marks (f v sp) blank.
Proof.
  intros Hf (H1 & H2 & H3). destruct (Hf v sp) as (S1 & S2 & S3).
  repeat split; congruence.
Qed.

Ltac keeps_marks :=
  repeat first
    [ assumption
    | apply same_marks_refl
    | apply same_marks_if
    | apply assign_int_marks
    | apply set_marks
    | (intros ? ?; repeat split; reflexivity) ].

Lemma mark_offline_marks sp blank :
  same_marks sp blank ->
  Speaker.is_offline (mark_offline sp) = JBool true
  /\ Speaker.error_message (mark_offline sp) = JStr "Speaker is offline or unreachable"
  /\ Speaker.name (mark_offline sp) = Speaker.name blank.
Proof. intros (H1 & _). repeat split. exact H1. Qed.



Ltac command_returns :=
  match goal with
  | |- context [execute_command ?s ?e ?n ?a ?l ?d] =>
      let H := fresh "H" in
      let r := fresh "r" in
      let e' := fresh "e" in
      let d' := fresh "d" in
      pose proof (execute_command_returns s e n a l d) as [? H];
      destruct (execute_command s e n a l d) as [[r|e'] d'];
      cbn [fst] in H; [clear H | discriminate H]
  end.

(** X17. Whatever the world does, [get_speaker_info] never ends in its
    [except]: the speaker it returns keeps its name, and either is marked
    offline with the fixed message or has the offline mark and the error
    message it was created with, never the text of an exception. *)
Theorem get_speaker_info_never_fails settings env py_int blank speaker_name d :
  let sp' := fst (get_speaker_info settings env py_int blank speaker_name d) in
  Speaker.name sp' = Speaker.name blank
  /\ ((Speaker.is_offline sp' = JBool true
       /\ Speaker.error_message sp' = JStr "Speaker is offline or unreachable")
      \/ (Speaker.is_offline sp' = Speaker.is_offline blank
          /\ Speaker.error_message sp' = Speaker.error_message blank)).
Proof.
  cbn zeta. unfold get_speaker_info.
  command_returns.
  destruct (looks_offline r).
  { destruct (mark_offline_marks blank blank (same_marks_refl blank)) as (A & B & C).
    cbn [fst]. auto. }
  match goal with |- context [if ?c then assign_int ?f ?t set_volume blank else blank] =>
    set (sp1 := if c then assign_int f t set_volume blank else blank) end.
  assert (M1 : same_marks sp1 blank) by (subst sp1; keeps_marks).
  clearbody sp1. command_returns.
  destruct (looks_offline r0).
  { destruct (mark_offline_marks sp1 blank M1) as (A & B & C). cbn [fst]. auto. }
  match goal with |- context [if ?c then set_is_muted ?v sp1 else sp1] =>
    set (sp2 := if c then set_is_muted v sp1 else sp1) end.
  assert (M2 : same_marks sp2 blank) by (subst sp2; keeps_marks).
  clearbody sp2. command_returns.
  destruct (looks_offline r1).
  { destruct (mark_offline_marks sp2 blank M2) as (A & B & C). cbn [fst]. auto. }
  match goal with |- context [if ?c then set_playback_state ?v sp2 else sp2] =>
    set (sp3 := if c then set_playback_state v sp2 else sp2) end.
  assert (M3 : same_marks sp3 blank) by (subst sp3; keeps_marks).
  clearbody sp3. command_returns.
  destruct (looks_offline r2).
  { destruct (mark_offline_marks sp3 blank M3) as (A & B & C). cbn [fst]. auto. }
  match goal with |- context [if ?c then set_current_track ?v sp3 else sp3] =>
    set (sp4 := if c then set_current_track v sp3 else sp3) end.
  assert (M4 : same_marks sp4 blank) by (subst sp4; keeps_marks).
  clearbody sp4. command_returns.
  match goal with |- context [if ?c then assign_int ?f ?t set_battery_level sp4 else sp4] =>
    set (sp5 := if c then assign_int f t set_battery_level sp4 else sp4) end.
  assert (M5 : same_marks sp5 blank) by (subst sp5; keeps_marks).
  destruct M5 as (N & F & E). cbn [fst]. auto.
Qed.



(** ** [toggle_mute] *)

(** X18. With the server running, [toggle_mute] sends two commands: it reads
    the mute state and then sets it, to off when the answer read is [on] in
    any letter case and to on in every other case. So when the state could
    not be read (the GET raised, or was answered with a status other than
    200) the speaker is muted. *)
Theorem toggle_mute_commands settings env speaker_name d :
  is_running env (_soco_cli_service d) = true ->
  own_client d ->
  let m := _soco_cli_service d in
  let read := http_get env (command_url settings speaker_name "mute" []) 30 (clock m) in
  let current_state := answer settings env speaker_name (clock m) "mute" in
  let new_state := if String.eqb (lower (result current_state)) "on" then "off" else "on" in
  (exists d',
     snd (toggle_mute settings env speaker_name (Some d)) = Some d'
     /\ trace (_soco_cli_service d')
        = (trace m ++ [ EvGet (command_url settings speaker_name "mute" []) 30;
                        EvGet (command_url settings speaker_name "mute" [new_state]) 30
                      ])%list)
  /\ ((exists e, read = Raise e)
      \/ (exists response, read = Ok response /\ status_code response <> 200) ->
      new_state = "on").
Proof.
  intros Hrun Hown m read current_state new_state. split.
  - unfold toggle_mute. cbn [_get_command_service].
    rewrite (command_answer settings env speaker_name "mute" d Hrun Hown).
    fold m. fold current_state. cbn zeta. fold new_state.
    rewrite (execute_command_running settings env speaker_name "mute" [new_state]);
      [| exact Hrun | apply after_get_own; exact Hown].
    eexists. split; [reflexivity|].
    cbn. now rewrite <- List.app_assoc.
  - intros Hread.
    assert (Hres : result current_state = "").
    { subst current_state. unfold answer, result_of, try_except.
      cbn [call_speaker call_action call_args]. fold m. fold read.
      destruct Hread as [[e He] | (response & Hr & Hs)]; rewrite ?He, ?Hr.
      - reflexivity.
      - cbn [response_of_get mbind Exc_bind exc_bind].
        apply Z.eqb_neq in Hs. rewrite Hs. reflexivity. }
    subst new_state. rewrite Hres. reflexivity.
Qed.

(** The speaker cannot be reached: the toggle asks for mute on. *)
Lemma toggle_mute_commands_witness :
  exists d',
    snd (toggle_mute Samples.settings Samples.env_silent "Kitchen"
           (Some Samples.dispatcher)) = Some d'
    /\ trace (_soco_cli_service d')
       = [ EvGet "http://localhost:8000/Kitchen/mute" 30;
           EvGet "http://localhost:8000/Kitchen/mute/on" 30 ].
Proof.
  assert (Hown : own_client Samples.dispatcher) by (intros c H; discriminate H).
  destruct (toggle_mute_commands Samples.settings Samples.env_silent "Kitchen"
              Samples.dispatcher eq_refl Hown) as ((d' & Hd & Ht) & _).
  exists d'. split; [exact Hd | exact Ht].
Defined.
